(** * EthicalBank: the client-side data-prefetch service

    A shallow embedding of [src/lib/data-prefetch.ts] (class
    [DataPrefetchService]): an in-memory cache with a time-to-live per entry,
    a table of fetches in flight per key that coalesces concurrent requests,
    and the dashboard orchestrator that warms the cache with eight resources
    behind a health probe.

    Conventions of the embedding.
    - [Date.now()] is an argument [now : Z] (milliseconds) of every operation
      that reads the clock; durations ([ttl]) are [Z] as well.
    - The service object is the record [Service]; every method is a function
      that takes the service and gives back its result and the new service.
    - JavaScript runs the methods on one thread: a call runs to its end, or to
      its next [await], before anything else happens.  The callbacks that
      [prefetch] chains on the producer's promise run when the environment
      settles that promise; this is the operation [settle], one step.
    - The promises that [prefetch] creates live in the list [fetches] of the
      service, which the class does not have as a field: it stands for the
      heap.  The promise of an [async] call is the term [promise], read
      against that list.
    - [prefetchOnHover] guards a call of [prefetchDashboard] by two [get]s;
      nothing below is about it and it is left out. *)

From stdpp Require Import gmap strings list fin_maps.
From Stdlib Require Import ZArith Lia.
From stdpp Require Import pretty.

Set Warnings "-register-all".

(** ** Values *)

(** The payloads are opaque JSON-like values.  [null] and [undefined] are
    kept apart because the code tests [!== null]. *)
Inductive value :=
  | VUndefined
  | VNull
  | VBool (b : bool)
  | VNum (n : Z)
  | VStr (s : string)
  | VArray (items : list value)
  | VObject (fields : list (string * value)).

(** [cached !== null] *)
Definition is_null (v : value) : bool :=
  match v with VNull => true | _ => false end.

(** JavaScript truthiness, as used by [if (!healthy)]. *)
Definition truthy (v : value) : bool :=
  match v with
  | VUndefined | VNull => false
  | VBool b => b
  | VNum n => negb (n =? 0)%Z
  | VStr s => negb (String.eqb s "")
  | VArray _ | VObject _ => true
  end.

(** How a promise settles. *)
Inductive outcome :=
  | Fulfilled (v : value)
  | Rejected (error : value).

(** ** Data model *)

(** [interface CacheEntry<T>] *)
Record CacheEntry := {
  data : value;
  timestamp : Z;
  ttl : Z
}.

(** The external calls of [backendAPI] that the service makes.  Their code
    is not part of the service; what they answer is chosen by the
    environment. *)
Inductive backend_method :=
  | isHealthy
  | getAccounts
  | getAccountsSummary
  | getTransactions (limit : Z)
  | getTransactionStats
  | getTransactionRecommendations
  | getSavingsSummary
  | getComprehensiveInsights
  | getPrivacyScore.

(** A producer ([fetchFn : () => Promise<T>]): either one of the closures
    [() => backendAPI.m(userId)] built by the orchestrator, or a closure of
    some other caller, known by an identifier.  A producer is asynchronous:
    calling it gives a promise, and its failure is the rejection of that
    promise. *)
Inductive producer :=
  | Backend (m : backend_method) (userId : string)
  | Closure (id : nat).

(** One call of a producer made by [prefetch], with what the two callbacks
    chained on it have captured ([key], [ttl]) and the state of the chained
    promise [fetchFn().then(..).catch(..)].  [settled = None] is a pending
    promise. *)
Record Fetch := {
  fetch_key : string;
  fetch_fn : producer;
  fetch_ttl : Z;
  settled : option outcome
}.

(** [class DataPrefetchService]: its two maps, and the promises it has
    created.  A promise is known by its position in [fetches], which only
    grows; [prefetchPromises] holds such positions. *)
Record Service := {
  cache : gmap string CacheEntry;
  prefetchPromises : gmap string nat;
  fetches : list Fetch
}.

(** The promise that an [async] method hands to its caller. *)
Inductive promise :=
  | Immediate (o : outcome)          (* the method returned a value or threw *)
  | Adopts (p : nat)                 (* the method returned the promise [p] *)
  | AllSettled (inputs : list promise)
  | CatchLog (p : promise).          (* [.catch((error) => console.error(..))] *)

(** The element of the array of [Promise.allSettled] for one input. *)
Definition settled_result (o : outcome) : value :=
  match o with
  | Fulfilled v => VObject [("status", VStr "fulfilled"); ("value", v)]
  | Rejected e => VObject [("status", VStr "rejected"); ("reason", e)]
  end.

(** The state of a promise, read from the promises of the service:
    [None] while it is pending. *)
Fixpoint outcome_of (fs : list Fetch) (p : promise) : option outcome :=
  match p with
  | Immediate o => Some o
  | Adopts f => fs !! f ≫= settled
  | AllSettled inputs =>
      (fix all (ps : list promise) : option (list outcome) :=
         match ps with
         | [] => Some []
         | q :: ps' =>
             match outcome_of fs q, all ps' with
             | Some o, Some os => Some (o :: os)
             | _, _ => None
             end
         end) inputs
      ≫= λ os, Some (Fulfilled (VArray (map settled_result os)))
  | CatchLog q =>
      match outcome_of fs q with
      | Some (Rejected _) => Some (Fulfilled VUndefined)
      | r => r
      end
  end.

Module DataPrefetchService.

(** [private readonly DEFAULT_TTL = 5 * 60 * 1000] *)
Definition DEFAULT_TTL : Z := 5 * 60 * 1000.

(** [new DataPrefetchService()] *)
Definition create : Service :=
  {| cache := ∅; prefetchPromises := ∅; fetches := [] |}.

Definition with_cache (c : gmap string CacheEntry) (s : Service) : Service :=
  {| cache := c; prefetchPromises := prefetchPromises s; fetches := fetches s |}.

Definition with_promises (m : gmap string nat) (s : Service) : Service :=
  {| cache := cache s; prefetchPromises := m; fetches := fetches s |}.

(** ** Cache store *)

(** [get<T>(key: string): T | null] *)
Definition get (key : string) (now : Z) (s : Service) : value * Service :=
  match cache s !! key with
  | None => (VNull, s)
  | Some entry =>
      if (now - timestamp entry >? ttl entry)%Z
      then (VNull, with_cache (delete key (cache s)) s)
      else (data entry, s)
  end.

(** [set<T>(key: string, data: T, ttl: number = this.DEFAULT_TTL): void];
    an omitted [ttl] is [None]. *)
Definition set (key : string) (data : value) (ttl : option Z) (now : Z)
    (s : Service) : Service :=
  with_cache
    (<[key := {| data := data; timestamp := now; ttl := default DEFAULT_TTL ttl |}]>
       (cache s)) s.

(** [clear(key: string): void] *)
Definition clear (key : string) (s : Service) : Service :=
  with_cache (delete key (cache s)) s.

(** [clearAll(): void] *)
Definition clearAll (s : Service) : Service :=
  {| cache := ∅; prefetchPromises := ∅; fetches := fetches s |}.

(** ** Prefetch coordinator *)

(** [this.prefetchPromises.delete(key)] *)
Definition forget (key : string) (s : Service) : Service :=
  with_promises (delete key (prefetchPromises s)) s.

(** [async prefetch<T>(key, fetchFn, ttl = this.DEFAULT_TTL): Promise<T>].
    The body has no [await]: it runs to its end within the call.  Calling
    [fetchFn()] and chaining the two callbacks creates the promise at the
    end of [fetches]. *)
Definition prefetch (key : string) (fetchFn : producer) (ttl : option Z)
    (now : Z) (s : Service) : promise * Service :=
  let '(cached, s) := get key now s in
  if negb (is_null cached) then (Immediate (Fulfilled cached), s)
  else
    match prefetchPromises s !! key with
    | Some existingPromise => (Adopts existingPromise, s)
    | None =>
        let promise := length (fetches s) in
        (Adopts promise,
         {| cache := cache s;
            prefetchPromises := <[key := promise]> (prefetchPromises s);
            fetches := fetches s ++
              [ {| fetch_key := key; fetch_fn := fetchFn;
                   fetch_ttl := default DEFAULT_TTL ttl; settled := None |} ] |})
    end.

(** [.then((data) => { this.set(key, data, ttl);
                       this.prefetchPromises.delete(key); return data })] *)
Definition on_then (key : string) (ttl : Z) (now : Z) (o : outcome)
    (s : Service) : outcome * Service :=
  match o with
  | Fulfilled data => (Fulfilled data, forget key (set key data (Some ttl) now s))
  | Rejected error => (Rejected error, s)
  end.

(** [.catch((error) => { this.prefetchPromises.delete(key); throw error })] *)
Definition on_catch (key : string) (o : outcome) (s : Service)
    : outcome * Service :=
  match o with
  | Fulfilled data => (Fulfilled data, s)
  | Rejected error => (Rejected error, forget key s)
  end.

Definition mark (p : nat) (f : Fetch) (o : outcome) (s : Service) : Service :=
  {| cache := cache s; prefetchPromises := prefetchPromises s;
     fetches := <[p := {| fetch_key := fetch_key f; fetch_fn := fetch_fn f;
                          fetch_ttl := fetch_ttl f; settled := Some o |}]>
                  (fetches s) |}.

(** The environment settles the promise that the producer of fetch [p]
    returned: the two callbacks run in turn and the chained promise takes
    the outcome of the second.  A promise settles once; settling a promise
    that is not pending, or not there, does nothing. *)
Definition settle (p : nat) (o : outcome) (now : Z) (s : Service) : Service :=
  match fetches s !! p with
  | Some f =>
      match settled f with
      | Some _ => s
      | None =>
          let '(o1, s1) := on_then (fetch_key f) (fetch_ttl f) now o s in
          let '(o2, s2) := on_catch (fetch_key f) o1 s1 in
          mark p f o2 s2
      end
  | None => s
  end.

(** ** Dashboard orchestrator *)

(** What an [async] method has left behind when it returns: how its own
    promise settled, and the promises it created without awaiting or
    returning them. *)
Record Completion := {
  result : outcome;
  detached : list promise
}.

(** An [async] method up to its next [await]: it is done, or it waits for an
    external call and goes on from the answer.  The continuation reads the
    clock once per [prefetch] call it makes ([clock i] at the [i]-th). *)
Inductive async :=
  | Done (c : Completion)
  | Await (call : backend_method)
      (resume : outcome → (nat → Z) → Service → async * Service).

Definition key_of (resource userId : string) : string :=
  resource +:+ ":" +:+ userId.

(** The array [prefetchTasks] before its calls are made: key, producer and
    time-to-live of each, in the order of the source. *)
Definition dashboard_calls (userId : string) : list (string * producer * Z) :=
  [ (key_of "accounts" userId, Backend getAccounts userId, 5 * 60 * 1000);
    (key_of "accounts-summary" userId, Backend getAccountsSummary userId, 5 * 60 * 1000);
    (key_of "transactions" userId, Backend (getTransactions 20) userId, 2 * 60 * 1000);
    (key_of "transactions-stats" userId, Backend getTransactionStats userId, 2 * 60 * 1000);
    (key_of "transactions-recommendations" userId,
       Backend getTransactionRecommendations userId, 5 * 60 * 1000);
    (key_of "savings-summary" userId, Backend getSavingsSummary userId, 5 * 60 * 1000);
    (key_of "ai-insights" userId, Backend getComprehensiveInsights userId, 10 * 60 * 1000);
    (key_of "privacy-score" userId, Backend getPrivacyScore userId, 10 * 60 * 1000) ]%Z.

(** Evaluating the array literal: the calls are made from left to right,
    the [i]-th at time [clock i]. *)
Fixpoint prefetch_each (calls : list (string * producer * Z)) (i : nat)
    (clock : nat → Z) (s : Service) : list promise * Service :=
  match calls with
  | [] => ([], s)
  | (key, fetchFn, ttl) :: calls' =>
      let '(task, s) := prefetch key fetchFn (Some ttl) (clock i) s in
      let '(tasks, s) := prefetch_each calls' (S i) clock s in
      (task :: tasks, s)
  end.

Definition returns_undefined (detached : list promise) : Completion :=
  {| result := Fulfilled VUndefined; detached := detached |}.

(** [async prefetchDashboard(userId: string): Promise<void>] *)
Definition prefetchDashboard (userId : string) : async :=
  Await isHealthy (λ healthy clock s,
    match healthy with
    | Rejected _ => (Done (returns_undefined []), s)          (* catch { return } *)
    | Fulfilled healthy =>
        if negb (truthy healthy) then (Done (returns_undefined []), s)
        else
          let '(prefetchTasks, s) :=
            prefetch_each (dashboard_calls userId) 0 clock s in
          (Done (returns_undefined [CatchLog (AllSettled prefetchTasks)]), s)
    end).

(** [async prefetchOnHover(userId: string): Promise<void>].  The method
    awaits nothing: its own promise is fulfilled with [undefined] when it
    returns.  The result is the call of [prefetchDashboard] it has started
    without awaiting it, if any.  The second [get] is made only when the
    first gave [null] ([||] does not evaluate its right side otherwise); the
    clock is read at [clock 0] by the first and at [clock 1] by the
    second. *)
Definition prefetchOnHover (userId : string) (clock : nat → Z) (s : Service)
    : option async * Service :=
  let '(accounts, s) := get (key_of "accounts" userId) (clock 0) s in
  let '(hasCachedData, s) :=
    if negb (is_null accounts) then (true, s)
    else
      let '(transactions, s) := get (key_of "transactions" userId) (clock 1) s in
      (negb (is_null transactions), s) in
  if negb hasCachedData then (Some (prefetchDashboard userId), s) else (None, s).

End DataPrefetchService.

Import DataPrefetchService.

(** ** The service in its environment *)

(** What can happen to the service between two suspension points: a caller
    runs one of its methods, or the environment settles the promise of a
    producer.  The continuation of [prefetchDashboard] after its [await] is a
    run of [Prefetch] calls. *)
Inductive event :=
  | Get (key : string)
  | Set_ (key : string) (data : value) (ttl : option Z)
  | Clear (key : string)
  | ClearAll
  | Prefetch (key : string) (fetchFn : producer) (ttl : option Z)
  | Settle (p : nat) (o : outcome).

(** What the caller gets back. *)
Inductive reply :=
  | RVoid
  | RValue (v : value)
  | RPromise (p : promise).

Definition exec (now : Z) (e : event) (s : Service) : reply * Service :=
  match e with
  | Get key => let '(v, s) := get key now s in (RValue v, s)
  | Set_ key data ttl => (RVoid, set key data ttl now s)
  | Clear key => (RVoid, clear key s)
  | ClearAll => (RVoid, clearAll s)
  | Prefetch key fetchFn ttl =>
      let '(p, s) := prefetch key fetchFn ttl now s in (RPromise p, s)
  | Settle p o => (RVoid, settle p o now s)
  end.

(** A history: each event with the time at which it happens. *)
Fixpoint run (h : list (Z * event)) (s : Service) : list reply * Service :=
  match h with
  | [] => ([], s)
  | (now, e) :: h' =>
      let '(r, s) := exec now e s in
      let '(rs, s) := run h' s in
      (r :: rs, s)
  end.

(** The states that the service can be in. *)
Inductive reachable : Service → Prop :=
  | reachable_create : reachable create
  | reachable_exec now e s : reachable s → reachable (exec now e s).2.

(** No value comes out of [get] for [key], whatever the time: there is no
    entry, or the entry holds [null]. *)
Definition absent (key : string) (s : Service) : Prop :=
  match cache s !! key with
  | None => True
  | Some entry => data entry = VNull
  end.

(** The promise [p] is there and pending. *)
Definition pending (p : nat) (s : Service) : Prop :=
  ∃ f, fetches s !! p = Some f ∧ settled f = None.

(** The calls of producers that [prefetch] has made so far, each with the
    key it was made for, in order. *)
Definition calls (s : Service) : list (string * producer) :=
  (λ f, (fetch_key f, fetch_fn f)) <$> fetches s.

(** Those made for [key]. *)
Definition invocations (key : string) (s : Service) : list (string * producer) :=
  filter (λ c, c.1 = key) (calls s).

(** The event is about [key]: a call that names it, a reset of the whole
    service, or the settlement of a fetch of it. *)
Definition touches (key : string) (s : Service) (e : event) : Prop :=
  match e with
  | Get k | Set_ k _ _ | Clear k | Prefetch k _ _ => k = key
  | ClearAll => True
  | Settle p _ => fetch_key <$> fetches s !! p = Some key
  end.

(** A condition on every event of a history, in the state where the event
    happens. *)
Fixpoint along (P : Service → event → Prop) (h : list (Z * event))
    (s : Service) : Prop :=
  match h with
  | [] => True
  | (now, e) :: h' => P s e ∧ along P h' (exec now e s).2
  end.

(** No event of the history is about [key]. *)
Definition quiet (key : string) : list (Z * event) → Service → Prop :=
  along (λ s e, ¬ touches key s e).

(** An event that leaves a fetch of [key] in flight: one more [prefetch] of
    [key], a [get] of it, or an event that is not about [key]. *)
Definition rides (key : string) (s : Service) (e : event) : Prop :=
  (∃ fn ttl, e = Prefetch key fn ttl) ∨ e = Get key ∨ ¬ touches key s e.

(** The fetch [p] of [key] is the one in flight: the table has it under
    [key], its promise is pending, and [get] has nothing for [key]. *)
Definition in_flight (key : string) (fn : producer) (ttl : Z) (p : nat)
    (s : Service) : Prop :=
  prefetchPromises s !! key = Some p ∧
  absent key s ∧
  fetches s !! p = Some {| fetch_key := key; fetch_fn := fn;
                           fetch_ttl := ttl; settled := None |}.

(** Every promise in the table of fetches in flight is a pending promise of
    a fetch for the key it is under. *)
Definition tracked_pending (s : Service) : Prop :=
  ∀ key p, prefetchPromises s !! key = Some p →
    ∃ f, fetches s !! p = Some f ∧ fetch_key f = key ∧ settled f = None.

(** Going on from an [await] with the answer of the external call. *)
Definition resume (a : async) (answer : outcome) (clock : nat → Z)
    (s : Service) : async * Service :=
  match a with
  | Done c => (Done c, s)
  | Await _ k => k answer clock s
  end.

(** The promise that [prefetch] creates for a call. *)
Definition started (c : string * producer * Z) : Fetch :=
  {| fetch_key := c.1.1; fetch_fn := c.1.2; fetch_ttl := c.2; settled := None |}.

(** The [prefetch] calls of a list as a history. *)
Fixpoint calls_history (cs : list (string * producer * Z)) (i : nat)
    (clock : nat → Z) : list (Z * event) :=
  match cs with
  | [] => []
  | (key, fetchFn, ttl) :: cs' =>
      (clock i, Prefetch key fetchFn (Some ttl)) :: calls_history cs' (S i) clock
  end.

(** A schedule of settlements for the promises [n0], [n0 + 1], ...: at time
    [t] the producer's promise of number [n0 + j] settles with [o]. *)
Definition settlements (n0 : nat) (sched : list (Z * (nat * outcome)))
    : list (Z * event) :=
  (λ x, (x.1, Settle (n0 + x.2.1) x.2.2)) <$> sched.

(** The resource names in the keys of the orchestrator, as the code has
    them. *)
Definition resource_names : list string :=
  [ "accounts"; "accounts-summary"; "transactions"; "transactions-stats";
    "transactions-recommendations"; "savings-summary"; "ai-insights";
    "privacy-score" ].

(** The resource names as the specification lists them, with the resource
    producers of its external interfaces. *)
Definition producer_names : list string :=
  [ "accounts"; "accounts-summary"; "transactions"; "transaction-stats";
    "transaction-recommendations"; "savings-summary"; "comprehensive-insights";
    "privacy-score" ].

(** The orchestrator would await its tasks if, whenever its own promise is
    settled, each of the tasks it has joined were settled too. *)
Definition awaits_its_tasks (userId : string) (healthy : outcome)
    (clock : nat → Z) (s : Service) : Prop :=
  ∀ c s' tasks,
    resume (prefetchDashboard userId) healthy clock s = (Done c, s') →
    detached c = [CatchLog (AllSettled tasks)] →
    Forall (λ task, is_Some (outcome_of (fetches s') task)) tasks.

(** ** The provider that calls the orchestrator

    [PrefetchProvider] in [src/components/PrefetchProvider.tsx]. *)

(** What the component reads at a render: [isLoaded] and [user?.id] from
    [useUser()], and [usePathname()].  [user?.id] is [None] when there is no
    user. *)
Record ProviderProps := {
  isLoaded : bool;
  user_id : option string;
  pathname : string
}.

#[global] Instance ProviderProps_eq_dec : EqDecision ProviderProps.
Proof. solve_decision. Defined.

(** What the effect does with the service. *)
Inductive provider_action :=
  | CallNow (userId : string)                  (* [prefetchDashboard(user.id)] *)
  | WhenIdle (userId : string) (timeout : Z)   (* in [requestIdleCallback] *)
  | AfterDelay (userId : string) (delay : Z).  (* in [setTimeout] *)

(** The component between renders: the cell [prefetchedRef], and the
    dependencies [[isLoaded, user?.id, pathname]] of the last run of the
    effect ([None] before the first render). *)
Record ProviderState := {
  prefetchedRef : bool;
  last_deps : option ProviderProps
}.

(** [!user?.id] is false: there is a user and the id is not empty. *)
Definition signed_in (p : ProviderProps) : option string :=
  match user_id p with
  | Some id => if String.eqb id "" then None else Some id
  | None => None
  end.

(** The body of the effect.  [hasIdleCallback] is
    ['requestIdleCallback' in window]. *)
Definition provider_effect (hasIdleCallback : bool) (p : ProviderProps)
    (prefetchedRef : bool) : list provider_action * bool :=
  if negb (isLoaded p) then ([], prefetchedRef)
  else
    match signed_in p with
    | None => ([], prefetchedRef)
    | Some id =>
        let '(warmup, prefetchedRef) :=
          if negb prefetchedRef then
            ([ CallNow id;
               if hasIdleCallback then WhenIdle id 2000 else AfterDelay id 1000 ],
             true)
          else ([], prefetchedRef) in
        (warmup ++ (if String.eqb (pathname p) "/" then [CallNow id] else []),
         prefetchedRef)
    end.

(** A render: React runs the effect after the first render and after a
    render in which one of its dependencies has changed. *)
Definition provider_render (hasIdleCallback : bool) (p : ProviderProps)
    (st : ProviderState) : list provider_action * ProviderState :=
  if decide (last_deps st = Some p) then ([], st)
  else
    let '(actions, ref) := provider_effect hasIdleCallback p (prefetchedRef st) in
    (actions, {| prefetchedRef := ref; last_deps := Some p |}).

Fixpoint provider_renders (hasIdleCallback : bool) (ps : list ProviderProps)
    (st : ProviderState) : list provider_action * ProviderState :=
  match ps with
  | [] => ([], st)
  | p :: ps' =>
      let '(actions, st) := provider_render hasIdleCallback p st in
      let '(actions', st) := provider_renders hasIdleCallback ps' st in
      (actions ++ actions', st)
  end.

(** [useRef(false)], before the first render. *)
Definition provider_mount : ProviderState :=
  {| prefetchedRef := false; last_deps := None |}.

Definition action_user (a : provider_action) : string :=
  match a with CallNow u | WhenIdle u _ | AfterDelay u _ => u end.

Definition scheduled (a : provider_action) : bool :=
  match a with CallNow _ => false | _ => true end.

(** ** The backend client

    [BackendAPIClient.request] in [src/lib/data-prefetch.ts]. *)

Inductive http_method := GET | POST | PUT | DELETE.

#[global] Instance http_method_eq_dec : EqDecision http_method.
Proof. solve_decision. Defined.

(** The [options] of [request]; an omitted [body] is [undefined]. *)
Record RequestOptions := {
  opt_method : option http_method;
  opt_body : value;
  opt_clerkUserId : option string
}.

(** The [RequestInit] handed to [fetch].  [body] is the value of which the
    request carries the [JSON.stringify]; the headers are in the order in
    which they were set. *)
Record RequestInit := {
  method : http_method;
  headers : list (string * string);
  credentials : string;
  body : option value
}.

(** What the client reads of a [Response]; [json] is how [response.json()]
    settles. *)
Record Response := {
  ok : bool;
  status : nat;
  statusText : string;
  json : outcome
}.

(** How [fetch] settles. *)
Inductive fetched :=
  | NetworkFailure (e : value)
  | Responded (r : Response).

(** What [request] rejects with. *)
Inductive failure :=
  | Error (message : value)       (* [new Error(message)] *)
  | Thrown (e : value)            (* a rejection of [fetch] or [json()], rethrown *)
  | CannotRead (property : string) (v : value).
                                   (* the [TypeError] of reading a property of [null] *)

(** [v.name] for a value that came out of [JSON.parse] or an object
    literal; the fields of an object have names that differ. *)
Definition read_property (name : string) (v : value) : value + failure :=
  match v with
  | VUndefined | VNull => inr (CannotRead name v)
  | VObject fields =>
      inl (default VUndefined
             ((λ found, found.2.2) <$> list_find (λ f, f.1 = name) fields))
  | _ => inl VUndefined
  end.

(** The first part of [request]: the URL and the [RequestInit]. *)
Definition request_init (o : RequestOptions) : RequestInit :=
  let method := default GET (opt_method o) in
  let headers := [("Content-Type", "application/json")] in
  let headers :=
    match opt_clerkUserId o with
    | Some id => if String.eqb id "" then headers
                 else headers ++ [("x-clerk-user-id", id)]
    | None => headers
    end in
  {| method := method; headers := headers; credentials := "include";
     body := if truthy (opt_body o) && negb (bool_decide (method = GET))
             then Some (opt_body o) else None |}.

(** The second part of [request]: from what [fetch] gave to what [request]
    gives. *)
Definition request_outcome (f : fetched) : value + failure :=
  match f with
  | NetworkFailure e => inr (Thrown e)
  | Responded response =>
      if negb (ok response) then
        let error :=
          match json response with
          | Fulfilled v => v
          | Rejected _ => VObject [("message", VStr (statusText response))]
          end in
        match read_property "message" error with
        | inl message =>
            inr (Error (if truthy message then message
                        else VStr ("HTTP " +:+ pretty (status response))))
        | inr e => inr e
        end
      else
        match json response with
        | Fulfilled data => inl data
        | Rejected e => inr (Thrown e)
        end
  end.

(** [async request<T>(endpoint, options = {}): Promise<T>]: the call of
    [fetch] it makes, and how it goes on from the answer. *)
Definition request (baseURL endpoint : string) (o : RequestOptions)
    : (string * RequestInit) * (fetched → value + failure) :=
  ((baseURL +:+ endpoint, request_init o), request_outcome).

(** ** The hooks that read the cache

    The fetching functions of the hooks [useSavings], [useAccounts],
    [useTransactions], [useAIInsights] and [useDataAccessControl] that go
    through the cache (in [src/app/privacy-control/page.tsx]).  The eight
    functions are one text with four things that change: the resource name
    in the key, what is put in the cache for an answer, what is put in the
    state cell, and the message of the error cell. *)

(** The parameters of [fetchTransactions]; a field that is not given is
    [None]. *)
Record TxParams := {
  accountId : option string;
  type_ : option string;
  category : option string;
  limit : option Z;
  skip : option Z
}.

Inductive hook :=
  | SavingsSummary                              (* [useSavings().fetchSummary] *)
  | Accounts                                    (* [useAccounts().fetchAccounts] *)
  | AccountsSummary                             (* [useAccounts().fetchSummary] *)
  | Transactions (params : option TxParams)     (* [useTransactions().fetchTransactions] *)
  | TransactionStats                            (* [useTransactions().fetchStats] *)
  | TransactionRecommendations                  (* [useTransactions().fetchRecommendations] *)
  | AIInsights                                  (* [useAIInsights().fetchInsights] *)
  | PrivacyScore.                               (* [useDataAccessControl().fetchPrivacyScore] *)

(** An optional string is truthy: given and not empty. *)
Definition given (x : option string) : bool :=
  match x with
  | Some text => negb (String.eqb text "")
  | None => false
  end.

(** [!params || (!params.accountId && !params.type && !params.category)] *)
Definition default_params (params : option TxParams) : bool :=
  match params with
  | None => true
  | Some p =>
      negb (given (accountId p)) && negb (given (type_ p))
      && negb (given (category p))
  end.

(** The resource name in [cacheKey]. *)
Definition hook_resource (h : hook) : string :=
  match h with
  | SavingsSummary => "savings-summary"
  | Accounts => "accounts"
  | AccountsSummary => "accounts-summary"
  | Transactions _ => "transactions"
  | TransactionStats => "transactions-stats"
  | TransactionRecommendations => "transactions-recommendations"
  | AIInsights => "ai-insights"
  | PrivacyScore => "privacy-score"
  end.

(** Whether the call goes through the cache: always, but for
    [fetchTransactions], which does so for default parameters only. *)
Definition hook_cached (h : hook) : bool :=
  match h with
  | Transactions params => default_params params
  | _ => true
  end.

(** [v || []] *)
Definition or_empty (v : value) : value :=
  if truthy v then v else VArray [].

(** What [dataPrefetchService.set] is given for the answer [data]. *)
Definition hook_store (h : hook) (data : value) : value :=
  match h with
  | Accounts | Transactions _ => or_empty data
  | _ => data
  end.

(** What the state cell is given for a cached value or an answer. *)
Definition hook_show (h : hook) (v : value) : value + failure :=
  match h with
  | Accounts | Transactions _ => inl (or_empty v)
  | TransactionRecommendations =>
      match read_property "recommendations" v with
      | inl recommendations => inl (or_empty recommendations)
      | inr e => inr e
      end
  | _ => inl v
  end.

(** The message of the error cell when the error has none. *)
Definition hook_message (h : hook) : string :=
  match h with
  | SavingsSummary => "Failed to fetch savings summary"
  | Accounts => "Failed to fetch accounts"
  | AccountsSummary => "Failed to fetch accounts summary"
  | Transactions _ => "Failed to fetch transactions"
  | TransactionStats => "Failed to fetch transaction stats"
  | TransactionRecommendations => "Failed to fetch recommendations"
  | AIInsights => "Failed to fetch AI insights"
  | PrivacyScore => "Failed to fetch privacy score"
  end.

(** What the error cell holds: [null], a message, or the message of the
    [TypeError] of a failed property read (a text of the engine, not
    empty). *)
Inductive hook_error :=
  | NoError
  | Message (m : value)
  | MessageOf (e : failure).

(** The three [useState] cells that the function writes: its data cell,
    [isLoading] and [error]. *)
Record HookCells := {
  cell : value;
  isLoading : bool;
  error_cell : hook_error
}.

(** Where the function is when its synchronous part ends. *)
Inductive reading :=
  | NotSignedIn               (* returned [undefined] at [if (!user?.id) return] *)
  | Served (cached : value)   (* returned [cached]; the backend call runs in the background *)
  | Waiting                   (* suspended at [await backendAPI...] *)
  | Failed (e : failure).     (* threw *)

(** [catch (err) { setError(err.message || '..'); throw err }] and
    [finally { setIsLoading(false) }], for what was thrown in the [try]:
    what the function throws in the end, and the cells. *)
Definition hook_catch (h : hook) (thrown : failure) (ui : HookCells)
    : failure * HookCells :=
  match thrown with
  | Thrown err =>
      match read_property "message" err with
      | inl m =>
          (Thrown err,
           {| cell := cell ui; isLoading := false;
              error_cell := Message (if truthy m then m else VStr (hook_message h)) |})
      | inr e =>
          (e, {| cell := cell ui; isLoading := false; error_cell := error_cell ui |})
      end
  | _ =>
      (thrown,
       {| cell := cell ui; isLoading := false; error_cell := MessageOf thrown |})
  end.

(** The function up to its [return cached] or its [await]. *)
Definition hook_start (h : hook) (user : option string) (now : Z)
    (s : Service) (ui : HookCells) : reading * Service * HookCells :=
  if negb (given user) then (NotSignedIn, s, ui)
  else
    let ui := {| cell := cell ui; isLoading := true; error_cell := NoError |} in
    if hook_cached h then
      let '(cached, s) := get (key_of (hook_resource h) (default "" user)) now s in
      if truthy cached then
        match hook_show h cached with
        | inl v =>
            (Served cached, s,
             {| cell := v; isLoading := false; error_cell := error_cell ui |})
        | inr e => let '(e, ui) := hook_catch h e ui in (Failed e, s, ui)
        end
      else (Waiting, s, ui)
    else (Waiting, s, ui).

(** The callbacks [.then(data => { set(cacheKey, ..); setX(..) }).catch(() =>
    {})] of the background call, when it settles. *)
Definition hook_background (h : hook) (userId : string) (answer : outcome)
    (now : Z) (s : Service) (ui : HookCells) : Service * HookCells :=
  match answer with
  | Fulfilled data =>
      let s := set (key_of (hook_resource h) userId) (hook_store h data) None now s in
      match hook_show h data with
      | inl v =>
          (s, {| cell := v; isLoading := isLoading ui; error_cell := error_cell ui |})
      | inr _ => (s, ui)
      end
  | Rejected _ => (s, ui)
  end.

(** The function from its [await] on, with the answer of the backend: what
    its promise settles with, the service and the cells. *)
Definition hook_resume (h : hook) (userId : string) (answer : outcome)
    (now : Z) (s : Service) (ui : HookCells)
    : (value + failure) * Service * HookCells :=
  match answer with
  | Fulfilled data =>
      let s :=
        if hook_cached h
        then set (key_of (hook_resource h) userId) (hook_store h data) None now s
        else s in
      match hook_show h data with
      | inl v =>
          (inl data, s,
           {| cell := v; isLoading := false; error_cell := error_cell ui |})
      | inr e => let '(e, ui) := hook_catch h e ui in (inr e, s, ui)
      end
  | Rejected err => let '(e, ui) := hook_catch h (Thrown err) ui in (inr e, s, ui)
  end.

(** * Properties *)

(** ** Cache store *)

Section cache_store.
Implicit Types (key : string) (s : Service) (v : value).

Lemma get_miss key now s :
  cache s !! key = None → get key now s = (VNull, s).
Proof. intros H. unfold get. by rewrite H. Qed.

Lemma get_fresh key now s entry :
  cache s !! key = Some entry →
  (now - timestamp entry <= ttl entry)%Z →
  get key now s = (data entry, s).
Proof.
  intros H Hle. unfold get. rewrite H.
  destruct (Z.gtb_spec (now - timestamp entry) (ttl entry)); [lia | done].
Qed.

Lemma get_stale key now s entry :
  cache s !! key = Some entry →
  (now - timestamp entry > ttl entry)%Z →
  get key now s = (VNull, clear key s).
Proof.
  intros H Hgt. unfold get. rewrite H.
  destruct (Z.gtb_spec (now - timestamp entry) (ttl entry)); [done | lia].
Qed.

Lemma cache_set key v ttl now s :
  cache (set key v ttl now s) =
  <[key := {| data := v; timestamp := now; ttl := default DEFAULT_TTL ttl |}]>
    (cache s).
Proof. done. Qed.

Lemma clear_set key v ttl now s : clear key (set key v ttl now s) = clear key s.
Proof. unfold clear, set, with_cache. simpl. by rewrite delete_insert_eq. Qed.

Lemma cache_clear key s : cache (clear key s) !! key = None.
Proof. apply lookup_delete_eq. Qed.

(** [get] only ever removes the entry it looked at. *)
Lemma get_cache key now s :
  cache (get key now s).2 = cache s ∨
  cache (get key now s).2 = delete key (cache s).
Proof.
  unfold get. destruct (cache s !! key) as [entry|]; [|by left].
  destruct (_ >? _)%Z; [by right | by left].
Qed.

Lemma get_promises key now s :
  prefetchPromises (get key now s).2 = prefetchPromises s.
Proof.
  unfold get. destruct (cache s !! key) as [entry|]; [|done].
  by destruct (_ >? _)%Z.
Qed.

Lemma get_fetches key now s : fetches (get key now s).2 = fetches s.
Proof.
  unfold get. destruct (cache s !! key) as [entry|]; [|done].
  by destruct (_ >? _)%Z.
Qed.

Lemma get_other key key' now s :
  key ≠ key' → cache (get key now s).2 !! key' = cache s !! key'.
Proof.
  intros Hne. destruct (get_cache key now s) as [-> | ->]; [done|].
  by apply lookup_delete_ne.
Qed.

(** [absent] is what [get] shows. *)
Lemma absent_get key s : absent key s ↔ ∀ now, (get key now s).1 = VNull.
Proof.
  unfold absent, get. split.
  - intros H now. destruct (cache s !! key) as [entry|]; [|done].
    by destruct (_ >? _)%Z.
  - intros H. destruct (cache s !! key) as [entry|] eqn:E; [|done].
    specialize (H (timestamp entry + ttl entry)%Z).
    destruct (Z.gtb_spec (timestamp entry + ttl entry - timestamp entry)
                (ttl entry)); [lia | done].
Qed.

Lemma absent_after_get key now s :
  (get key now s).1 = VNull → absent key (get key now s).2.
Proof.
  unfold absent, get. destruct (cache s !! key) as [entry|] eqn:E.
  - destruct (_ >? _)%Z; simpl; [by rewrite lookup_delete_eq | by rewrite E].
  - simpl. by rewrite E.
Qed.
End cache_store.

(** ** Prefetch coordinator: what one step does *)

Section coordinator.
Implicit Types (key : string) (s : Service) (v : value) (o : outcome).

(** The three ways through [prefetch]. *)
Lemma prefetch_hit key fn ttl now s :
  (get key now s).1 ≠ VNull →
  prefetch key fn ttl now s =
    (Immediate (Fulfilled (get key now s).1), (get key now s).2).
Proof.
  intros H. unfold prefetch. destruct (get key now s) as [cached s1]. simpl in *.
  by destruct cached.
Qed.

Lemma prefetch_join key fn ttl now s p :
  (get key now s).1 = VNull →
  prefetchPromises s !! key = Some p →
  prefetch key fn ttl now s = (Adopts p, (get key now s).2).
Proof.
  intros H Hp. unfold prefetch. pose proof (get_promises key now s) as Hg.
  destruct (get key now s) as [cached s1]. simpl in *. subst cached. simpl.
  by rewrite Hg, Hp.
Qed.

Lemma prefetch_start key fn ttl now s :
  (get key now s).1 = VNull →
  prefetchPromises s !! key = None →
  prefetch key fn ttl now s =
    (Adopts (length (fetches s)),
     {| cache := cache (get key now s).2;
        prefetchPromises := <[key := length (fetches s)]> (prefetchPromises s);
        fetches := fetches s ++
          [ {| fetch_key := key; fetch_fn := fn;
               fetch_ttl := default DEFAULT_TTL ttl; settled := None |} ] |}).
Proof.
  intros H Hp. unfold prefetch. pose proof (get_promises key now s) as Hg.
  pose proof (get_fetches key now s) as Hf.
  destruct (get key now s) as [cached s1]. simpl in *. subst cached. simpl.
  by rewrite Hg, Hp, Hf.
Qed.

(** [prefetch] of one key leaves the other keys alone. *)
Lemma prefetch_cache_other key key' fn ttl now s :
  key ≠ key' → cache (prefetch key fn ttl now s).2 !! key' = cache s !! key'.
Proof.
  intros Hne. pose proof (get_other key key' now s Hne) as Hc.
  unfold prefetch. destruct (get key now s) as [cached s1]. simpl in *.
  destruct (negb _); [done|].
  by destruct (prefetchPromises s1 !! key).
Qed.

Lemma prefetch_promises_other key key' fn ttl now s :
  key ≠ key' →
  prefetchPromises (prefetch key fn ttl now s).2 !! key' =
  prefetchPromises s !! key'.
Proof.
  intros Hne. pose proof (get_promises key now s) as Hg.
  unfold prefetch. destruct (get key now s) as [cached s1]. simpl in *.
  destruct (negb _); simpl; [by rewrite Hg|].
  destruct (prefetchPromises s1 !! key); simpl; [by rewrite Hg|].
  by rewrite lookup_insert_ne, Hg.
Qed.

(** [prefetch] adds at most one promise, pending and for its own key. *)
Lemma prefetch_fetches key fn ttl now s :
  fetches (prefetch key fn ttl now s).2 = fetches s ∨
  fetches (prefetch key fn ttl now s).2 =
    fetches s ++ [ {| fetch_key := key; fetch_fn := fn;
                      fetch_ttl := default DEFAULT_TTL ttl; settled := None |} ].
Proof.
  pose proof (get_fetches key now s) as Hf.
  unfold prefetch. destruct (get key now s) as [cached s1]. simpl in *.
  destruct (negb _); [by left|].
  destruct (prefetchPromises s1 !! key); simpl; [by left|].
  right. by rewrite Hf.
Qed.

(** What [settle] does to a pending promise. *)
Lemma settle_pending p o now s f :
  fetches s !! p = Some f → settled f = None →
  settle p o now s =
    mark p f o
      (forget (fetch_key f)
         match o with
         | Fulfilled data => set (fetch_key f) data (Some (fetch_ttl f)) now s
         | Rejected _ => s
         end).
Proof.
  intros Hf Hs. unfold settle. rewrite Hf, Hs. by destruct o.
Qed.

Lemma settle_done p o now s f o' :
  fetches s !! p = Some f → settled f = Some o' → settle p o now s = s.
Proof. intros Hf Hs. unfold settle. by rewrite Hf, Hs. Qed.

Lemma settle_nothing p o now s :
  fetches s !! p = None → settle p o now s = s.
Proof. intros Hf. unfold settle. by rewrite Hf. Qed.

(** [settle] keeps the log of producer calls. *)
Lemma settle_calls p o now s : calls (settle p o now s) = calls s.
Proof.
  destruct (fetches s !! p) as [f|] eqn:Hf;
    [|by rewrite settle_nothing].
  destruct (settled f) as [o'|] eqn:Hs;
    [by erewrite settle_done|].
  rewrite (settle_pending _ _ _ _ f) by done.
  unfold calls, mark. simpl.
  assert (fetches
            match o with
            | Fulfilled data => set (fetch_key f) data (Some (fetch_ttl f)) now s
            | Rejected _ => s
            end = fetches s) as -> by (by destruct o).
  rewrite list_fmap_insert. simpl. apply list_insert_id.
  by rewrite list_lookup_fmap, Hf.
Qed.

Lemma settle_fetch_other p q o now s :
  p ≠ q → fetches (settle p o now s) !! q = fetches s !! q.
Proof.
  intros Hne.
  destruct (fetches s !! p) as [f|] eqn:Hf;
    [|by rewrite settle_nothing].
  destruct (settled f) as [o'|] eqn:Hs;
    [by erewrite settle_done|].
  rewrite (settle_pending _ _ _ _ f) by done.
  unfold mark. simpl. rewrite list_lookup_insert_ne by done.
  by destruct o.
Qed.

(** [settle] leaves the keys of other fetches alone. *)
Lemma settle_frame p o now s key :
  fetch_key <$> fetches s !! p ≠ Some key →
  cache (settle p o now s) !! key = cache s !! key ∧
  prefetchPromises (settle p o now s) !! key = prefetchPromises s !! key.
Proof.
  intros Hk.
  destruct (fetches s !! p) as [f|] eqn:Hf;
    [|by rewrite settle_nothing].
  destruct (settled f) as [o'|] eqn:Hs;
    [by erewrite settle_done|].
  rewrite (settle_pending _ _ _ _ f) by done.
  assert (fetch_key f ≠ key) as Hne by (intros <-; by apply Hk).
  unfold mark, forget, with_promises. simpl.
  rewrite lookup_delete_ne by done.
  destruct o; simpl; [by rewrite lookup_insert_ne | done].
Qed.
End coordinator.

(** ** Events that are about other keys *)

Section frame.
Implicit Types (key : string) (s : Service) (e : event) (h : list (Z * event)).

Lemma exec_frame key now e s :
  ¬ touches key s e →
  cache (exec now e s).2 !! key = cache s !! key ∧
  prefetchPromises (exec now e s).2 !! key = prefetchPromises s !! key.
Proof.
  destruct e as [k|k d t|k| |k fn t|p o]; simpl; intros Hk.
  - pose proof (get_other k key now s Hk). pose proof (get_promises k now s).
    destruct (get k now s) as [v s1]. simpl in *. split; congruence.
  - split; [by apply lookup_insert_ne | done].
  - split; [by apply lookup_delete_ne | done].
  - by destruct Hk.
  - pose proof (prefetch_cache_other k key fn t now s Hk).
    pose proof (prefetch_promises_other k key fn t now s Hk).
    by destruct (prefetch k fn t now s) as [r s1].
  - by apply settle_frame.
Qed.

(** A promise changes only when it is settled. *)
Lemma exec_fetch now e s q f :
  (∀ o, e ≠ Settle q o) →
  fetches s !! q = Some f → fetches (exec now e s).2 !! q = Some f.
Proof.
  destruct e as [k|k d t|k| |k fn t|p o]; simpl; intros He Hq; try done.
  - pose proof (get_fetches k now s) as Hf.
    destruct (get k now s) as [v s1]. simpl in *. by rewrite Hf.
  - pose proof (prefetch_fetches k fn t now s) as Hf.
    destruct (prefetch k fn t now s) as [r s1]. simpl in *.
    destruct Hf as [-> | ->]; [done|]. by apply lookup_app_l_Some.
  - rewrite settle_fetch_other; [done|]. intros ->. by apply (He o).
Qed.

Lemma exec_fetch_quiet now e s q f :
  ¬ touches (fetch_key f) s e →
  fetches s !! q = Some f → fetches (exec now e s).2 !! q = Some f.
Proof.
  intros Hk Hq. apply exec_fetch; [|done].
  intros o ->. apply Hk. simpl. by rewrite Hq.
Qed.

(** The calls of producers for [key] stay as they are. *)
Lemma exec_invocations key now e s :
  ¬ touches key s e → invocations key (exec now e s).2 = invocations key s.
Proof.
  unfold invocations.
  destruct e as [k|k d t|k| |k fn t|p o]; simpl; intros Hk; try done.
  - pose proof (get_fetches k now s) as Hf.
    destruct (get k now s) as [v s1]. simpl in *. unfold calls. by rewrite Hf.
  - pose proof (prefetch_fetches k fn t now s) as Hf.
    destruct (prefetch k fn t now s) as [r s1]. simpl in *. unfold calls.
    destruct Hf as [-> | ->]; [done|].
    rewrite fmap_app, filter_app. simpl.
    rewrite filter_cons_False, filter_nil by done. apply app_nil_r.
  - by rewrite settle_calls.
Qed.

Lemma along_app P h1 h2 s :
  along P (h1 ++ h2) s ↔ along P h1 s ∧ along P h2 (run h1 s).2.
Proof.
  revert s. induction h1 as [|[now e] h1 IH]; intros s; simpl; [tauto|].
  rewrite IH. destruct (exec now e s) as [r s1]. simpl.
  destruct (run h1 s1) as [rs s2]. simpl. tauto.
Qed.

Lemma run_app h1 h2 s :
  run (h1 ++ h2) s =
  ((run h1 s).1 ++ (run h2 (run h1 s).2).1, (run h2 (run h1 s).2).2).
Proof.
  revert s. induction h1 as [|[now e] h1 IH]; intros s; simpl.
  - by destruct (run h2 s).
  - destruct (exec now e s) as [r s1]. rewrite IH.
    destruct (run h1 s1) as [rs s2]. simpl. by destruct (run h2 s2).
Qed.

Lemma run_cons now e h s :
  (run ((now, e) :: h) s).2 = (run h (exec now e s).2).2.
Proof.
  simpl. destruct (exec now e s) as [r s1]. simpl. by destruct (run h s1).
Qed.

Lemma quiet_frame key h s :
  quiet key h s →
  cache (run h s).2 !! key = cache s !! key ∧
  prefetchPromises (run h s).2 !! key = prefetchPromises s !! key ∧
  invocations key (run h s).2 = invocations key s.
Proof.
  revert s. induction h as [|[now e] h IH]; intros s; [done|].
  intros [He Hh]. rewrite run_cons.
  destruct (IH _ Hh) as (-> & -> & ->).
  destruct (exec_frame key now e s He) as [-> ->].
  by rewrite exec_invocations.
Qed.

Lemma quiet_fetch h s q f :
  quiet (fetch_key f) h s →
  fetches s !! q = Some f → fetches (run h s).2 !! q = Some f.
Proof.
  revert s. induction h as [|[now e] h IH]; intros s; [done|].
  intros [He Hh] Hq. rewrite run_cons. apply IH; [done|].
  by apply exec_fetch_quiet.
Qed.
End frame.

(** ** The claims about the cache store *)

(** C2 (freshness).  After [set(k, v, ttl)] at time [t0], and whatever has
    happened since that is not about [k], a [get(k)] at time [t1] returns
    [v] if [t1 - t0 <= ttl]; if [t1 - t0 > ttl] it returns [null] and the
    entry is gone from the cache. *)
Theorem get_after_set key v ttl t0 t1 s h :
  quiet key h (set key v (Some ttl) t0 s) →
  let s1 := (run h (set key v (Some ttl) t0 s)).2 in
  ((t1 - t0 ≤ ttl)%Z → get key t1 s1 = (v, s1)) ∧
  ((t1 - t0 > ttl)%Z →
     get key t1 s1 = (VNull, clear key s1) ∧
     cache (get key t1 s1).2 !! key = None).
Proof.
  intros Hq s1. destruct (quiet_frame _ _ _ Hq) as (Hc & _ & _).
  fold s1 in Hc. rewrite cache_set, lookup_insert_eq in Hc. split; intros Ht.
  - by rewrite (get_fresh _ _ _ _ Hc).
  - rewrite (get_stale _ _ _ _ Hc) by done. split; [done|]. apply cache_clear.
Qed.

Lemma get_after_set_witness :
  get "accounts:u1" 300000 (set "accounts:u1" (VNum 7) (Some 300000%Z) 0 create)
    = (VNum 7, set "accounts:u1" (VNum 7) (Some 300000%Z) 0 create) ∧
  (get "accounts:u1" 300001 (set "accounts:u1" (VNum 7) (Some 300000%Z) 0 create)).1
    = VNull.
Proof.
  pose proof (get_after_set "accounts:u1" (VNum 7) 300000 0 300000 create [] I) as H1.
  pose proof (get_after_set "accounts:u1" (VNum 7) 300000 0 300001 create [] I) as H2.
  simpl in H1, H2. split.
  - apply H1. lia.
  - destruct H2 as [_ H2]. destruct H2 as [H2 _]; [lia|]. by rewrite H2.
Defined.

(** C8 (the later write wins).  [set] overwrites without looking at what is
    there: after [set(k, v1, ttl)] and then [set(k, v2, ttl)], with anything
    at all in between and anything that is not about [k] after, the entry of
    [k] holds [v2] with the time of the second [set] as its timestamp, and a
    [get(k)] before that entry expires returns [v2].  Done one right after
    the other, the two writes leave the state that the second alone would
    leave.  The two times-to-live need not be the same. *)
Theorem later_write_wins key v1 v2 ttl1 ttl2 t1 t2 t s h1 h2 :
  let s1 := (run h1 (set key v1 (Some ttl1) t1 s)).2 in
  quiet key h2 (set key v2 (Some ttl2) t2 s1) →
  let s2 := (run h2 (set key v2 (Some ttl2) t2 s1)).2 in
  cache s2 !! key = Some {| data := v2; timestamp := t2; ttl := ttl2 |} ∧
  ((t - t2 ≤ ttl2)%Z → get key t s2 = (v2, s2)) ∧
  set key v2 (Some ttl2) t2 (set key v1 (Some ttl1) t1 s)
    = set key v2 (Some ttl2) t2 s.
Proof.
  intros s1 Hq2 s2. destruct (quiet_frame _ _ _ Hq2) as (Hc & _ & _).
  fold s2 in Hc. rewrite cache_set, lookup_insert_eq in Hc.
  split; [done|]. split.
  - intros Ht. by rewrite (get_fresh _ _ _ _ Hc).
  - unfold set, with_cache. simpl. by rewrite insert_insert_eq.
Qed.

Lemma later_write_wins_witness :
  get "accounts:u1" 10
    (set "accounts:u1" (VNum 2) (Some 300000%Z) 5
       (set "accounts:u1" (VNum 1) (Some 300000%Z) 0 create))
  = (VNum 2,
     set "accounts:u1" (VNum 2) (Some 300000%Z) 5
       (set "accounts:u1" (VNum 1) (Some 300000%Z) 0 create)).
Proof.
  pose proof (later_write_wins "accounts:u1" (VNum 1) (VNum 2) 300000 300000
                0 5 10 create [] [] I) as H.
  simpl in H. apply H. lia.
Defined.

(** ** Coalescing *)

Section coalescing.
Implicit Types (key : string) (s : Service) (e : event) (h : list (Z * event)).

Lemma absent_get_null key now s : absent key s → (get key now s).1 = VNull.
Proof. intros H. by apply absent_get. Qed.

Lemma absent_get_absent key now s : absent key s → absent key (get key now s).2.
Proof. intros H. by apply absent_after_get, absent_get_null. Qed.

Lemma absent_same key s s' :
  cache s' !! key = cache s !! key → absent key s → absent key s'.
Proof. unfold absent. by intros ->. Qed.

(** The first call for a key that is absent and not in flight starts the
    fetch: the producer is called, once. *)
Lemma prefetch_starts key fn ttl now s :
  (get key now s).1 = VNull → prefetchPromises s !! key = None →
  let r := prefetch key fn ttl now s in
  r.1 = Adopts (length (fetches s)) ∧
  in_flight key fn (default DEFAULT_TTL ttl) (length (fetches s)) r.2 ∧
  calls r.2 = calls s ++ [(key, fn)].
Proof.
  intros Hg Hp r. subst r. rewrite prefetch_start by done. simpl.
  split; [done|]. split.
  - unfold in_flight. simpl. split; [by rewrite lookup_insert_eq|]. split.
    + by apply (absent_after_get key now s).
    + by rewrite lookup_app_r, Nat.sub_diag.
  - unfold calls. simpl. by rewrite fmap_app.
Qed.

(** While the fetch is in flight, a further call for the key joins it. *)
Lemma prefetch_joins key fn ttl p fn' ttl' now s :
  in_flight key fn ttl p s →
  prefetch key fn' ttl' now s = (Adopts p, (get key now s).2).
Proof.
  intros (Hp & Ha & _). apply prefetch_join; [|done]. by apply absent_get_null.
Qed.

Lemma in_flight_exec key fn ttl p now e s :
  in_flight key fn ttl p s → rides key s e →
  in_flight key fn ttl p (exec now e s).2 ∧
  invocations key (exec now e s).2 = invocations key s ∧
  (∀ fn' ttl', e = Prefetch key fn' ttl' →
     (exec now e s).1 = RPromise (Adopts p)).
Proof.
  intros Hin He. pose proof Hin as (Hp & Ha & Hf).
  assert (in_flight key fn ttl p (get key now s).2) as Hget.
  { split; [by rewrite get_promises|]. split; [by apply absent_get_absent|].
    by rewrite get_fetches. }
  assert (invocations key (get key now s).2 = invocations key s) as Hcalls.
  { unfold invocations, calls. by rewrite get_fetches. }
  destruct He as [(fn' & ttl' & ->) | [-> | He]].
  - simpl. rewrite (prefetch_joins _ _ _ _ _ _ _ _ Hin). simpl.
    split; [done|]. split; [done|]. done.
  - simpl. destruct (get key now s) as [v s1]. simpl in *.
    split; [done|]. split; [done|]. by intros fn' ttl' [=].
  - destruct (exec_frame key now e s He) as [Hc Hpp].
    split; [|split].
    + split; [by rewrite Hpp|]. split; [by apply (absent_same key s)|].
      by apply exec_fetch_quiet.
    + by apply exec_invocations.
    + intros fn' ttl' ->. by destruct He.
Qed.

Lemma in_flight_run key fn ttl p h s :
  in_flight key fn ttl p s → along (rides key) h s →
  in_flight key fn ttl p (run h s).2 ∧
  invocations key (run h s).2 = invocations key s ∧
  (∀ i now fn' ttl', h !! i = Some (now, Prefetch key fn' ttl') →
     (run h s).1 !! i = Some (RPromise (Adopts p))).
Proof.
  revert s. induction h as [|[now e] h IH]; intros s Hin Hh.
  - split; [done|]. split; [done|]. by intros i now fn' ttl' [=].
  - destruct Hh as [He Hh].
    destruct (in_flight_exec _ _ _ _ now _ _ Hin He) as (Hin' & Hc & Hr).
    destruct (IH _ Hin' Hh) as (Hin'' & Hc' & Hr').
    rewrite run_cons. split; [done|]. split; [congruence|].
    intros [|i] now' fn' ttl' Hi; simpl in *.
    + injection Hi as <- ->. specialize (Hr _ _ eq_refl).
      destruct (exec now _ s) as [r s1]. simpl in *. subst r.
      by destruct (run h s1).
    + specialize (Hr' _ _ _ _ Hi).
      destruct (exec now e s) as [r s1]. simpl in *.
      by destruct (run h s1).
Qed.

(** Settling the fetch in flight. *)
Lemma in_flight_settle key fn ttl p o now s :
  in_flight key fn ttl p s →
  let s' := settle p o now s in
  prefetchPromises s' !! key = None ∧
  outcome_of (fetches s') (Adopts p) = Some o ∧
  calls s' = calls s ∧
  cache s' = match o with
             | Fulfilled v =>
                 <[key := {| data := v; timestamp := now; ttl := ttl |}]> (cache s)
             | Rejected _ => cache s
             end.
Proof.
  intros (Hp & Ha & Hf) s'. subst s'. split; [|split; [|split]].
  - rewrite (settle_pending _ _ _ _ _ Hf) by done. simpl.
    by rewrite lookup_delete_eq.
  - rewrite (settle_pending _ _ _ _ _ Hf) by done. unfold mark. simpl.
    rewrite list_lookup_insert_eq; [done|].
    destruct o; simpl; by apply lookup_lt_Some in Hf.
  - apply settle_calls.
  - rewrite (settle_pending _ _ _ _ _ Hf) by done. by destruct o.
Qed.
End coalescing.

Section invariant.
Implicit Types (key : string) (s : Service) (e : event).

Lemma tracked_pending_get key now s :
  tracked_pending s → tracked_pending (get key now s).2.
Proof.
  intros H k p. rewrite get_promises, get_fetches. apply H.
Qed.

Lemma tracked_pending_prefetch key fn ttl now s :
  tracked_pending s → tracked_pending (prefetch key fn ttl now s).2.
Proof.
  intros H. pose proof (tracked_pending_get key now s H) as Hg.
  unfold prefetch. destruct (get key now s) as [cached s1]. simpl in *.
  destruct (negb _); [done|].
  destruct (prefetchPromises s1 !! key) eqn:Hp; [done|].
  intros k p. simpl. rewrite lookup_insert. case_decide as Hk.
  - subst k. intros [= <-]. eexists.
    split; [by rewrite lookup_app_r, Nat.sub_diag | done].
  - intros Hkp. destruct (Hg _ _ Hkp) as (f & Hf & Hfk & Hfs).
    exists f. split; [|done]. by apply lookup_app_l_Some.
Qed.

Lemma tracked_pending_settle p o now s :
  tracked_pending s → tracked_pending (settle p o now s).
Proof.
  intros H.
  destruct (fetches s !! p) as [f|] eqn:Hf;
    [|by rewrite settle_nothing].
  destruct (settled f) as [o'|] eqn:Hs;
    [by erewrite settle_done|].
  rewrite (settle_pending _ _ _ _ f) by done.
  intros k q. unfold mark, forget, with_promises. simpl.
  assert (prefetchPromises
            match o with
            | Fulfilled data => set (fetch_key f) data (Some (fetch_ttl f)) now s
            | Rejected _ => s
            end = prefetchPromises s) as -> by (by destruct o).
  assert (fetches
            match o with
            | Fulfilled data => set (fetch_key f) data (Some (fetch_ttl f)) now s
            | Rejected _ => s
            end = fetches s) as -> by (by destruct o).
  rewrite lookup_delete. case_decide as Hk; [done|].
  intros Hkq. destruct (H _ _ Hkq) as (g & Hg & Hgk & Hgs).
  exists g. split; [|done].
  rewrite list_lookup_insert_ne; [done|].
  intros ->. congruence.
Qed.

(** In every state that the service can be in, the promises in the table
    of fetches in flight are pending: a promise leaves the table in the
    step that settles it. *)
Lemma reachable_tracked_pending s : reachable s → tracked_pending s.
Proof.
  induction 1 as [|now e s Hs IH].
  - intros k p. simpl. by rewrite lookup_empty.
  - destruct e as [k|k d t|k| |k fn t|p o]; simpl.
    + pose proof (tracked_pending_get k now s IH).
      by destruct (get k now s).
    + done.
    + done.
    + intros k p. simpl. by rewrite lookup_empty.
    + pose proof (tracked_pending_prefetch k fn t now s IH).
      by destruct (prefetch k fn t now s).
    + by apply tracked_pending_settle.
Qed.
End invariant.

(** C1 (coalescing).  The key [key] has nothing fresh in the cache and no
    fetch in flight when [prefetch(key, fn, ttl)] is called.  Until the
    producer's promise settles, further [prefetch] calls for [key] arrive, in
    any number, mixed with [get(key)] and with events that are not about
    [key].  Then: the first call starts the fetch [p]; every later call for
    [key] is handed the same promise [p]; at every moment of the history the
    table holds exactly [p] for [key], [p] is pending, and the producer has
    been called once for [key], no other; and when the producer's promise
    settles with [o], the entry for [key] leaves the table in that step and
    the promise shared by all the calls settles with [o], the value or the
    failure of that single call; a value is stored in the cache, a failure
    leaves the cache as it was. *)
Theorem coalescing key fn ttl t0 s0 h :
  (get key t0 s0).1 = VNull →
  prefetchPromises s0 !! key = None →
  let p := length (fetches s0) in
  let s1 := (prefetch key fn ttl t0 s0).2 in
  along (rides key) h s1 →
  (prefetch key fn ttl t0 s0).1 = Adopts p ∧
  (∀ i now fn' ttl', h !! i = Some (now, Prefetch key fn' ttl') →
     (run h s1).1 !! i = Some (RPromise (Adopts p))) ∧
  (∀ h1 h2, h = h1 ++ h2 →
     let s := (run h1 s1).2 in
     prefetchPromises s !! key = Some p ∧ pending p s ∧
     invocations key s = invocations key s0 ++ [(key, fn)]) ∧
  (∀ o now,
     let s3 := settle p o now (run h s1).2 in
     prefetchPromises s3 !! key = None ∧
     outcome_of (fetches s3) (Adopts p) = Some o ∧
     invocations key s3 = invocations key s0 ++ [(key, fn)] ∧
     match o with
     | Fulfilled v =>
         cache s3 !! key = Some {| data := v; timestamp := now;
                                   ttl := default DEFAULT_TTL ttl |}
     | Rejected _ => cache s3 = cache (run h s1).2
     end).
Proof.
  intros Hg Hp p s1 Hh.
  destruct (prefetch_starts key fn ttl t0 s0 Hg Hp) as (Hr & Hin & Hc).
  fold s1 in Hin, Hc. fold p in Hr, Hin.
  assert (invocations key s1 = invocations key s0 ++ [(key, fn)]) as Hc1.
  { unfold invocations. rewrite Hc, filter_app.
    by rewrite filter_cons_True, filter_nil. }
  destruct (in_flight_run _ _ _ _ _ _ Hin Hh) as (Hin2 & Hc2 & Hrs).
  split; [done|]. split; [done|]. split.
  - intros h1 h2 -> s. apply along_app in Hh as [Hh1 _].
    destruct (in_flight_run _ _ _ _ _ _ Hin Hh1) as ((Hp1 & _ & Hf1) & Hci & _).
    fold s in Hp1, Hf1, Hci. split; [done|]. split; [by eexists|]. congruence.
  - intros o now s3.
    destruct (in_flight_settle _ _ _ _ o now _ Hin2) as (Hp3 & Ho3 & Hc3 & Hk3).
    fold s3 in Hp3, Ho3, Hc3, Hk3. split; [done|]. split; [done|]. split.
    + unfold invocations in *. rewrite Hc3. congruence.
    + destruct o; [by rewrite Hk3, lookup_insert_eq | done].
Qed.

Lemma coalescing_witness :
  let s1 := (prefetch "tx:u1" (Closure 0) (Some 120000%Z) 0 create).2 in
  let h := [(0%Z, Prefetch "tx:u1" (Closure 0) (Some 120000%Z))] in
  let s3 := settle 0 (Fulfilled (VObject [("total", VNum 3)])) 50 (run h s1).2 in
  (prefetch "tx:u1" (Closure 0) (Some 120000%Z) 0 create).1 = Adopts 0 ∧
  (run h s1).1 !! 0%nat = Some (RPromise (Adopts 0)) ∧
  prefetchPromises s3 !! "tx:u1" = None ∧
  outcome_of (fetches s3) (Adopts 0)
    = Some (Fulfilled (VObject [("total", VNum 3)])) ∧
  invocations "tx:u1" s3 = [("tx:u1", Closure 0)].
Proof.
  intros s1 h s3.
  assert (along (rides "tx:u1") h s1) as Hh.
  { split; [|exact I]. left. by eexists _, _. }
  destruct (coalescing "tx:u1" (Closure 0) (Some 120000%Z) 0 create h
              eq_refl eq_refl Hh) as (H1 & H2 & _ & H4).
  split; [exact H1|]. split; [by eapply H2|].
  destruct (H4 (Fulfilled (VObject [("total", VNum 3)])) 50%Z)
    as (H5 & H6 & H7 & _).
  split; [exact H5|]. split; [exact H6 | exact H7].
Defined.

(** C4 (a failure is not cached).  The key [key] has nothing fresh in the
    cache and no fetch in flight when [prefetch(key, fn, ttl)] is called;
    further calls for [key] join the fetch, mixed with [get(key)] and with
    events that are not about [key]; then the producer's promise rejects with
    [error].  The settlement leaves the cache as it was, so [get] still has
    nothing for [key]; the entry of [key] leaves the table; the promise
    shared by all the callers is rejected with [error]; and the next
    [prefetch(key, fn', ttl')], at any time, calls [fn']: it starts a new
    fetch. *)
Theorem failure_is_not_cached key fn ttl t0 s0 h error t fn' ttl' t' :
  (get key t0 s0).1 = VNull →
  prefetchPromises s0 !! key = None →
  let p := length (fetches s0) in
  let s1 := (prefetch key fn ttl t0 s0).2 in
  along (rides key) h s1 →
  let s2 := (run h s1).2 in
  let s3 := settle p (Rejected error) t s2 in
  let r := prefetch key fn' ttl' t' s3 in
  cache s3 = cache s2 ∧ absent key s3 ∧
  prefetchPromises s3 !! key = None ∧
  (prefetch key fn ttl t0 s0).1 = Adopts p ∧
  (∀ i now fn'' ttl'', h !! i = Some (now, Prefetch key fn'' ttl'') →
     (run h s1).1 !! i = Some (RPromise (Adopts p))) ∧
  outcome_of (fetches s3) (Adopts p) = Some (Rejected error) ∧
  r.1 = Adopts (length (fetches s3)) ∧
  calls r.2 = calls s3 ++ [(key, fn')] ∧
  pending (length (fetches s3)) r.2.
Proof.
  intros Hg Hp p s1 Hh s2 s3 r.
  destruct (prefetch_starts key fn ttl t0 s0 Hg Hp) as (Hr & Hin & _).
  fold s1 in Hin. fold p in Hr, Hin.
  destruct (in_flight_run _ _ _ _ _ _ Hin Hh) as (Hin2 & _ & Hrs).
  fold s2 in Hin2.
  destruct (in_flight_settle _ _ _ _ (Rejected error) t _ Hin2)
    as (Hp3 & Ho3 & _ & Hc3).
  fold s3 in Hp3, Ho3, Hc3.
  assert (absent key s3) as Ha3.
  { destruct Hin2 as (_ & Ha & _). apply (absent_same key s2); [|done].
    by rewrite Hc3. }
  destruct (prefetch_starts key fn' ttl' t' s3) as (Hr' & Hin' & Hc');
    [by apply absent_get_null | done |].
  fold r in Hr', Hin', Hc'.
  repeat (split; [done|]).
  destruct Hin' as (_ & _ & Hf). by eexists.
Qed.

Lemma failure_is_not_cached_witness :
  let s1 := (prefetch "tx:u1" (Closure 0) (Some 120000%Z) 0 create).2 in
  let s3 := settle 0 (Rejected (VStr "HTTP 500")) 50 s1 in
  cache s3 = cache s1 ∧
  prefetchPromises s3 !! "tx:u1" = None ∧
  outcome_of (fetches s3) (Adopts 0) = Some (Rejected (VStr "HTTP 500")) ∧
  calls (prefetch "tx:u1" (Closure 1) None 60 s3).2
    = calls s3 ++ [("tx:u1", Closure 1)].
Proof.
  intros s1 s3.
  destruct (failure_is_not_cached "tx:u1" (Closure 0) (Some 120000%Z) 0 create []
              (VStr "HTTP 500") 50 (Closure 1) None 60 eq_refl eq_refl I)
    as (H1 & _ & H3 & _ & _ & H6 & _ & H8 & _).
  split; [exact H1|]. split; [exact H3|]. split; [exact H6 | exact H8].
Defined.

(** C9 (a cached [null] reads as absent).  An entry whose payload is [null]
    is in the cache, yet [get] answers [null] for it at every time, before
    expiry too, which is its answer for a key without entry; and a
    [prefetch] of the key, when no fetch of it is in flight, calls its
    producer.  This holds when the entry was written by [set(k, null, ttl)]
    and when it was written by a fetch whose producer resolved with
    [null]. *)
Theorem null_payload_is_absent key fn' ttl' now :
  (∀ ttl t0 s h,
     prefetchPromises s !! key = None →
     quiet key h (set key VNull ttl t0 s) →
     let s1 := (run h (set key VNull ttl t0 s)).2 in
     let r := prefetch key fn' ttl' now s1 in
     is_Some (cache s1 !! key) ∧
     (get key now s1).1 = VNull ∧
     (get key now (clear key s1)).1 = VNull ∧
     r.1 = Adopts (length (fetches s1)) ∧
     calls r.2 = calls s1 ++ [(key, fn')]) ∧
  (∀ fn ttl t0 s0 h t,
     (get key t0 s0).1 = VNull →
     prefetchPromises s0 !! key = None →
     let s1 := (prefetch key fn ttl t0 s0).2 in
     along (rides key) h s1 →
     let s2 := settle (length (fetches s0)) (Fulfilled VNull) t (run h s1).2 in
     let r := prefetch key fn' ttl' now s2 in
     is_Some (cache s2 !! key) ∧
     (get key now s2).1 = VNull ∧
     (get key now (clear key s2)).1 = VNull ∧
     r.1 = Adopts (length (fetches s2)) ∧
     calls r.2 = calls s2 ++ [(key, fn')]).
Proof.
  assert (∀ s entry, cache s !! key = Some entry → data entry = VNull →
            prefetchPromises s !! key = None →
            let r := prefetch key fn' ttl' now s in
            is_Some (cache s !! key) ∧
            (get key now s).1 = VNull ∧
            (get key now (clear key s)).1 = VNull ∧
            r.1 = Adopts (length (fetches s)) ∧
            calls r.2 = calls s ++ [(key, fn')]) as Hnull.
  { intros s entry Hc Hd Hp r.
    assert (absent key s) as Ha by (unfold absent; by rewrite Hc).
    split; [by eexists|]. split; [by apply absent_get_null|].
    split; [by rewrite get_miss by apply cache_clear|].
    destruct (prefetch_starts key fn' ttl' now s) as (Hr & _ & Hcalls);
      [by apply absent_get_null | done | done]. }
  split.
  - intros ttl t0 s h Hp Hq s1 r.
    destruct (quiet_frame _ _ _ Hq) as (Hc & Hpp & _). fold s1 in Hc, Hpp.
    rewrite cache_set, lookup_insert_eq in Hc. simpl in Hpp.
    eapply Hnull; [done | done | congruence].
  - intros fn ttl t0 s0 h t Hg Hp s1 Hh s2 r.
    destruct (prefetch_starts key fn ttl t0 s0 Hg Hp) as (_ & Hin & _).
    fold s1 in Hin.
    destruct (in_flight_run _ _ _ _ _ _ Hin Hh) as (Hin2 & _ & _).
    destruct (in_flight_settle _ _ _ _ (Fulfilled VNull) t _ Hin2)
      as (Hp2 & _ & _ & Hc2).
    fold s2 in Hp2, Hc2.
    eapply Hnull; [by rewrite Hc2, lookup_insert_eq | done | done].
Qed.

Lemma null_payload_is_absent_witness :
  let s1 := set "accounts:u1" VNull None 0 create in
  let s2 := settle 0 (Fulfilled VNull) 50
              (prefetch "accounts:u1" (Closure 0) None 0 create).2 in
  ((get "accounts:u1" 1 s1).1 = VNull ∧
   calls (prefetch "accounts:u1" (Closure 1) None 1 s1).2
     = calls s1 ++ [("accounts:u1", Closure 1)]) ∧
  ((get "accounts:u1" 51 s2).1 = VNull ∧
   calls (prefetch "accounts:u1" (Closure 1) None 51 s2).2
     = calls s2 ++ [("accounts:u1", Closure 1)]).
Proof.
  intros s1 s2.
  destruct (null_payload_is_absent "accounts:u1" (Closure 1) None 1) as [HA _].
  destruct (null_payload_is_absent "accounts:u1" (Closure 1) None 51) as [_ HB].
  destruct (HA None 0%Z create [] eq_refl I) as (_ & H1 & _ & _ & H2).
  destruct (HB (Closure 0) None 0%Z create [] 50%Z eq_refl eq_refl I)
    as (_ & H3 & _ & _ & H4).
  split; [split; [exact H1 | exact H2] | split; [exact H3 | exact H4]].
Defined.

(** C10 ([clearAll] does not stop a fetch that has started).  A fetch [p] of
    the key [k] is pending; [clearAll()] empties the cache and the table;
    then, after anything that is not about [k], the producer's promise is
    fulfilled with [v] at time [t].  The callback of the fetch still writes:
    the cache holds [v] for [k] with timestamp [t] and the time-to-live of
    the fetch, and a [get(k)] within that time returns [v]. *)
Theorem clearAll_does_not_stop_fetch p f s h v t t' :
  fetches s !! p = Some f →
  settled f = None →
  let k := fetch_key f in
  let s1 := clearAll s in
  quiet k h s1 →
  let s2 := settle p (Fulfilled v) t (run h s1).2 in
  cache s1 = ∅ ∧ prefetchPromises s1 = ∅ ∧
  cache s2 !! k = Some {| data := v; timestamp := t; ttl := fetch_ttl f |} ∧
  ((t' - t ≤ fetch_ttl f)%Z → get k t' s2 = (v, s2)).
Proof.
  intros Hf Hs k s1 Hq s2.
  assert (fetches (run h s1).2 !! p = Some f) as Hf2
    by (by apply quiet_fetch).
  assert (cache s2 !! k = Some {| data := v; timestamp := t; ttl := fetch_ttl f |})
    as Hc.
  { subst s2. rewrite (settle_pending _ _ _ _ _ Hf2) by done. simpl.
    by rewrite lookup_insert_eq. }
  split; [done|]. split; [done|]. split; [done|].
  intros Ht. by rewrite (get_fresh _ _ _ _ Hc).
Qed.

Lemma clearAll_does_not_stop_fetch_witness :
  let s := (prefetch "accounts:u1" (Closure 0) (Some 300000%Z) 0 create).2 in
  let s2 := settle 0 (Fulfilled (VNum 7)) 50 (clearAll s) in
  cache (clearAll s) = ∅ ∧ get "accounts:u1" 60 s2 = (VNum 7, s2).
Proof.
  intros s s2.
  destruct (clearAll_does_not_stop_fetch 0
              {| fetch_key := "accounts:u1"; fetch_fn := Closure 0;
                 fetch_ttl := 300000; settled := None |}
              s [] (VNum 7) 50 60 eq_refl eq_refl I) as (H1 & _ & _ & H4).
  split; [exact H1|]. apply H4. simpl. lia.
Defined.

(** ** Dashboard orchestrator *)

Section orchestrator.
Implicit Types (key userId : string) (s : Service) (clock : nat → Z).

(** The eight keys differ, whoever the user is. *)
Lemma dashboard_keys_NoDup userId : NoDup (dashboard_calls userId).*1.*1.
Proof.
  unfold dashboard_calls, key_of. simpl.
  repeat (apply NoDup_cons; split;
          [rewrite ?elem_of_cons, elem_of_nil; intros H;
           repeat (destruct H as [H|H]; [discriminate H|]); exact H|]).
  apply NoDup_nil_2.
Qed.

Lemma dashboard_keys userId :
  (dashboard_calls userId).*1.*1 = (λ r, key_of r userId) <$> resource_names.
Proof. done. Qed.

Lemma dashboard_calls_length userId : length (dashboard_calls userId) = 8.
Proof. done. Qed.

(** What [get] answers for a key depends on the entry of that key only. *)
Lemma get_value key now s s' :
  cache s' !! key = cache s !! key → (get key now s').1 = (get key now s).1.
Proof.
  intros H. unfold get. rewrite H.
  destruct (cache s !! key) as [entry|]; [|done]. by destruct (_ >? _)%Z.
Qed.

Lemma calls_lookup s p :
  calls s !! p = (λ f, (fetch_key f, fetch_fn f)) <$> fetches s !! p.
Proof. apply list_lookup_fmap. Qed.

(** A list of calls for keys that differ, none of which has a value in the
    cache or a fetch in flight: each call starts a fetch, and all the
    fetches are in flight at the end. *)
Lemma prefetch_each_cold cs i clock s :
  NoDup cs.*1.*1 →
  (∀ j c, cs !! j = Some c →
     (get c.1.1 (clock (i + j)) s).1 = VNull ∧
     prefetchPromises s !! c.1.1 = None) →
  let r := prefetch_each cs i clock s in
  r.1 = Adopts <$> seq (length (fetches s)) (length cs) ∧
  fetches r.2 = fetches s ++ (started <$> cs) ∧
  (∀ j c, cs !! j = Some c →
     in_flight c.1.1 c.1.2 c.2 (length (fetches s) + j) r.2) ∧
  (∀ k, k ∉ cs.*1.*1 →
     cache r.2 !! k = cache s !! k ∧
     prefetchPromises r.2 !! k = prefetchPromises s !! k).
Proof.
  revert i s. induction cs as [|[[k fn] ttl] cs IH]; intros i s Hnd Hcold.
  - simpl. rewrite app_nil_r. by repeat split.
  - simpl in Hnd. apply NoDup_cons in Hnd as [Hk Hnd].
    destruct (Hcold 0 _ eq_refl) as [Hg Hp]. simpl in Hg, Hp.
    rewrite Nat.add_0_r in Hg.
    destruct (prefetch_starts k fn (Some ttl) (clock i) s Hg Hp)
      as (Hr & Hin & _).
    pose proof (prefetch_start k fn (Some ttl) (clock i) s Hg Hp) as Hst.
    assert (∀ k', k ≠ k' →
              cache (prefetch k fn (Some ttl) (clock i) s).2 !! k' = cache s !! k' ∧
              prefetchPromises (prefetch k fn (Some ttl) (clock i) s).2 !! k'
                = prefetchPromises s !! k') as Hother.
    { intros k' Hne. split;
        [by apply prefetch_cache_other | by apply prefetch_promises_other]. }
    simpl. destruct (prefetch k fn (Some ttl) (clock i) s) as [task s1].
    simpl in Hr, Hin, Hother. injection Hst as -> Hs1.
    assert (fetches s1 = fetches s ++ [started (k, fn, ttl)]) as Hf1
      by (by rewrite Hs1).
    assert (length (fetches s1) = S (length (fetches s))) as Hlen
      by (rewrite Hf1, length_app; simpl; lia).
    specialize (IH (S i) s1 Hnd).
    destruct IH as (Htasks & Hfs & Hins & Hframe).
    { intros j c Hj.
      assert (k ≠ c.1.1) as Hne.
      { intros ->. apply Hk. apply list_elem_of_lookup. exists j.
        by rewrite !list_lookup_fmap, Hj. }
      destruct (Hcold (S j) c Hj) as [Hg' Hp'].
      destruct (Hother _ Hne) as [Hc1 Hp1].
      rewrite (get_value _ _ s s1) by done.
      replace (S i + j) with (i + S j) by lia. split; congruence. }
    destruct (prefetch_each cs (S i) clock s1) as [tasks s2].
    simpl in *. rewrite Htasks, Hlen, Hfs, Hf1, <- app_assoc.
    split; [done|]. split; [done|]. split.
    + intros [|j] c Hj; simpl in Hj.
      * injection Hj as <-. simpl. rewrite Nat.add_0_r.
        destruct Hin as (Hpk & Hak & Hfk).
        destruct (Hframe k Hk) as [Hck Hppk].
        split; [congruence|]. split; [by apply (absent_same k s1)|].
        rewrite Hfs. by apply lookup_app_l_Some.
      * specialize (Hins j c Hj). rewrite Hlen in Hins.
        by replace (length (fetches s) + S j) with (S (length (fetches s)) + j)
          by lia.
    + intros k' Hk'. apply not_elem_of_cons in Hk' as [Hne Hk'].
      destruct (Hframe k' Hk') as [-> ->]. by apply Hother.
Qed.

(** The calls of the array literal are [prefetch] calls like any other. *)
Lemma prefetch_each_run cs i clock s :
  run (calls_history cs i clock) s =
  (RPromise <$> (prefetch_each cs i clock s).1, (prefetch_each cs i clock s).2).
Proof.
  revert i s. induction cs as [|[[k fn] ttl] cs IH]; intros i s; [done|].
  simpl. destruct (prefetch k fn (Some ttl) (clock i) s) as [task s1].
  rewrite IH. by destruct (prefetch_each cs (S i) clock s1).
Qed.

Lemma along_impl (P Q : Service → event → Prop) h s :
  (∀ s e, P s e → Q s e) → along P h s → along Q h s.
Proof.
  intros HPQ. revert s. induction h as [|[now e] h IH]; intros s; [done|].
  intros [He Hh]. split; [by apply HPQ | by apply IH].
Qed.

Lemma quiet_rides key h s : quiet key h s → along (rides key) h s.
Proof. apply along_impl. intros s' e He. by right; right. Qed.

(** Settlements keep the log of producer calls. *)
Lemma settlements_calls n0 sched s :
  calls (run (settlements n0 sched) s).2 = calls s.
Proof.
  revert s. induction sched as [|[t [j o]] sched IH]; intros s; [done|].
  unfold settlements. rewrite fmap_cons, run_cons. simpl.
  fold (settlements n0 sched). by rewrite IH, settle_calls.
Qed.

(** Settlements of fetches of other keys are not about [key]. *)
Lemma settlements_quiet key n0 sched s :
  (∀ x, x ∈ sched → ∃ c, calls s !! (n0 + x.2.1) = Some c ∧ c.1 ≠ key) →
  quiet key (settlements n0 sched) s.
Proof.
  revert s. induction sched as [|[t [j o]] sched IH]; intros s Hs; [done|].
  split.
  - simpl. destruct (Hs (t, (j, o))) as (c & Hc & Hne); [by left|].
    simpl in Hc. rewrite calls_lookup in Hc.
    destruct (fetches s !! (n0 + j)) as [f|]; [|done].
    simpl in *. injection Hc as <-. simpl in Hne. congruence.
  - apply IH. intros x Hx. simpl. rewrite settle_calls.
    apply Hs. by right.
Qed.

(** A fetch in flight, from the call that started it to the end: calls
    that join it and events about other keys, then its settlement, then
    events about other keys. *)
Lemma in_flight_settled key fn ttl p pre post o t s :
  in_flight key fn ttl p s →
  along (rides key) pre s →
  let s' := settle p o t (run pre s).2 in
  quiet key post s' →
  let final := (run post s').2 in
  outcome_of (fetches final) (Adopts p) = Some o ∧
  prefetchPromises final !! key = None ∧
  match o with
  | Fulfilled v =>
      cache final !! key = Some {| data := v; timestamp := t; ttl := ttl |}
  | Rejected _ => absent key final
  end.
Proof.
  intros Hin Hpre s' Hpost final.
  destruct (in_flight_run _ _ _ _ _ _ Hin Hpre) as (Hin2 & _ & _).
  destruct (in_flight_settle _ _ _ _ o t _ Hin2) as (Hp & Ho & _ & Hc).
  fold s' in Hp, Ho, Hc.
  destruct (quiet_frame _ _ _ Hpost) as (Hcf & Hpf & _).
  fold final in Hcf, Hpf. simpl in Ho.
  destruct (fetches s' !! p) as [f|] eqn:Hf; [|done]. simpl in Ho.
  assert (fetch_key f = key) as Hfk.
  { subst s'. destruct Hin2 as (_ & _ & Hf2).
    rewrite (settle_pending _ _ _ _ _ Hf2) in Hf by done.
    unfold mark in Hf. simpl in Hf.
    apply list_lookup_insert_Some in Hf as [(_ & <- & _) | [? _]]; done. }
  split.
  - simpl. unfold final.
    rewrite (quiet_fetch post s' p f); [done | by rewrite Hfk | done].
  - split; [congruence|]. destruct o as [v|e].
    + by rewrite Hcf, Hc, lookup_insert_eq.
    + destruct Hin2 as (_ & Ha & _). apply (absent_same key (run pre s).2); [|done].
      by rewrite Hcf, Hc.
Qed.
End orchestrator.

Section dashboard.
Implicit Types (key userId : string) (s : Service) (clock : nat → Z).

Lemma create_cold key now :
  (get key now create).1 = VNull ∧ prefetchPromises create !! key = None.
Proof. split; [by rewrite get_miss by apply lookup_empty | apply lookup_empty]. Qed.

Lemma resume_unhealthy userId healthy clock s :
  match healthy with
  | Fulfilled v => truthy v = false
  | Rejected _ => True
  end →
  resume (prefetchDashboard userId) healthy clock s
    = (Done (returns_undefined []), s).
Proof. destruct healthy as [v|e]; simpl; [by intros ->|done]. Qed.

Lemma resume_healthy userId v clock s :
  truthy v = true →
  resume (prefetchDashboard userId) (Fulfilled v) clock s
    = (Done (returns_undefined
               [CatchLog (AllSettled
                  (prefetch_each (dashboard_calls userId) 0 clock s).1)]),
       (prefetch_each (dashboard_calls userId) 0 clock s).2).
Proof.
  intros Hv. unfold resume, prefetchDashboard. rewrite Hv. simpl negb.
  cbv iota. by destruct (prefetch_each (dashboard_calls userId) 0 clock s).
Qed.

(** The position of a fetch started by a list of calls, in the log. *)
Lemma started_calls_lookup s s1 (cs : list (string * producer * Z)) j c :
  fetches s1 = fetches s ++ (started <$> cs) →
  cs !! j = Some c →
  calls s1 !! (length (fetches s) + j) = Some (c.1.1, c.1.2).
Proof.
  intros Hf Hj. rewrite calls_lookup, Hf, lookup_app_r by lia.
  replace (length (fetches s) + j - length (fetches s)) with j by lia.
  by rewrite list_lookup_fmap, Hj.
Qed.

(** Settlements of the other fetches of a list of calls with keys that
    differ are not about the key of the call number [j]. *)
Lemma others_quiet s s1 s' (cs : list (string * producer * Z)) j c part :
  NoDup cs.*1.*1 →
  fetches s1 = fetches s ++ (started <$> cs) →
  calls s' = calls s1 →
  cs !! j = Some c →
  (∀ x, x ∈ part → x.2.1 ≠ j ∧ x.2.1 < length cs) →
  quiet c.1.1 (settlements (length (fetches s)) part) s'.
Proof.
  intros Hnd Hf Hcalls Hj Hpart. apply settlements_quiet. intros x Hx.
  destruct (Hpart x Hx) as [Hne Hlt].
  destruct (lookup_lt_is_Some_2 cs x.2.1 Hlt) as [c' Hj'].
  exists (c'.1.1, c'.1.2). rewrite Hcalls. split.
  - by apply (started_calls_lookup s s1 cs).
  - simpl. intros Heq. apply Hne.
    apply (NoDup_lookup cs.*1.*1 _ _ c.1.1); [done | |].
    + by rewrite !list_lookup_fmap, Hj', <- Heq.
    + by rewrite !list_lookup_fmap, Hj.
Qed.
End dashboard.

(** C5 (orchestration isolation).  The probe answers healthy, and none of
    the eight keys has a value in the cache or a fetch in flight.  Then
    [prefetchDashboard] returns normally, its promise fulfilled with
    [undefined], having started the eight fetches.  Let the producers'
    promises settle, any of them, in any order and at any times, each with
    its own outcome, fulfilled or rejected.  Each settlement decides its own
    key and no other: a key whose producer resolved with [v] at time [t] has
    the entry [v] with timestamp [t] and the time-to-live of its resource; a
    key whose producer rejected is still absent; their entries have left the
    table, and the task of each has the outcome of its producer. *)
Theorem orchestration_isolation userId healthy clock s sched :
  truthy healthy = true →
  (∀ j c, dashboard_calls userId !! j = Some c →
     (get c.1.1 (clock j) s).1 = VNull ∧
     prefetchPromises s !! c.1.1 = None) →
  NoDup sched.*2.*1 →
  (∀ x, x ∈ sched → x.2.1 < 8) →
  let n0 := length (fetches s) in
  let r := resume (prefetchDashboard userId) (Fulfilled healthy) clock s in
  let final := (run (settlements n0 sched) r.2).2 in
  r.1 = Done (returns_undefined [CatchLog (AllSettled (Adopts <$> seq n0 8))]) ∧
  calls r.2 = calls s ++ ((dashboard_calls userId).*1) ∧
  ∀ t j o c,
    (t, (j, o)) ∈ sched →
    dashboard_calls userId !! j = Some c →
    outcome_of (fetches final) (Adopts (n0 + j)) = Some o ∧
    prefetchPromises final !! c.1.1 = None ∧
    match o with
    | Fulfilled v =>
        cache final !! c.1.1 = Some {| data := v; timestamp := t; ttl := c.2 |}
    | Rejected _ => absent c.1.1 final
    end.
Proof.
  intros Hv Hcold Hnd Hlt n0 r final.
  destruct (prefetch_each_cold (dashboard_calls userId) 0 clock s
              (dashboard_keys_NoDup userId) Hcold) as (Htasks & Hf & Hin & _).
  subst final r. rewrite resume_healthy by done. cbn [fst snd].
  set (s1 := (prefetch_each (dashboard_calls userId) 0 clock s).2) in *.
  split; [by rewrite Htasks|]. split.
  { unfold calls. rewrite Hf, fmap_app. by f_equal. }
  intros t j o c Hsched Hj.
  apply list_elem_of_split in Hsched as (pre & post & ->).
  rewrite !fmap_app, !fmap_cons in Hnd. cbn [fst snd] in Hnd.
  apply NoDup_app in Hnd as (_ & Hpre & Hpost).
  apply NoDup_cons in Hpost as [Hpost _].
  unfold settlements. rewrite fmap_app, fmap_cons. cbn [fst snd].
  fold (settlements n0 pre). fold (settlements n0 post).
  rewrite run_app. cbn [snd]. rewrite run_cons. cbn [exec snd].
  apply (in_flight_settled c.1.1 c.1.2 c.2).
  - by apply Hin.
  - apply quiet_rides.
    apply (others_quiet s s1 s1 (dashboard_calls userId) j c pre
             (dashboard_keys_NoDup userId) Hf eq_refl Hj).
    intros x Hx. split.
    + intros Heq. apply (Hpre x.2.1).
      * apply list_elem_of_fmap. exists x.2. split; [done|].
        apply list_elem_of_fmap. by exists x.
      * rewrite Heq. by left.
    + apply Hlt. apply elem_of_app. by left.
  - apply (others_quiet s s1 _ (dashboard_calls userId) j c post
             (dashboard_keys_NoDup userId) Hf); [|done|].
    + by rewrite settle_calls, settlements_calls.
    + intros x Hx. split.
      * intros Heq. apply Hpost. rewrite <- Heq.
        apply list_elem_of_fmap. exists x.2. split; [done|].
        apply list_elem_of_fmap. by exists x.
      * apply Hlt. apply elem_of_app. right. by right.
Qed.

Lemma orchestration_isolation_witness :
  let sched : list (Z * (nat * outcome)) :=
    [ (100%Z, (2, Rejected (VStr "HTTP 500")));
      (110%Z, (0, Fulfilled (VNum 10))); (120%Z, (7, Fulfilled (VNum 17)));
      (130%Z, (1, Fulfilled (VNum 11))); (140%Z, (3, Fulfilled (VNum 13)));
      (150%Z, (6, Fulfilled (VNum 16))); (160%Z, (4, Fulfilled (VNum 14)));
      (170%Z, (5, Fulfilled (VNum 15))) ] in
  let r := resume (prefetchDashboard "u1") (Fulfilled (VBool true)) (λ _, 0%Z)
             create in
  let final := (run (settlements 0 sched) r.2).2 in
  r.1 = Done (returns_undefined [CatchLog (AllSettled (Adopts <$> seq 0 8))]) ∧
  cache final !! "accounts:u1"
    = Some {| data := VNum 10; timestamp := 110; ttl := 300000 |} ∧
  cache final !! "privacy-score:u1"
    = Some {| data := VNum 17; timestamp := 120; ttl := 600000 |} ∧
  absent "transactions:u1" final.
Proof.
  intros sched r final.
  assert (NoDup sched.*2.*1) as Hnd
    by (apply (bool_decide_unpack _); vm_compute; exact I).
  assert (∀ x, x ∈ sched → x.2.1 < 8) as Hlt.
  { intros x Hx. apply (Forall_forall (λ x, x.2.1 < 8) sched); [|done].
    repeat constructor. }
  destruct (orchestration_isolation "u1" (VBool true) (λ _, 0%Z) create sched
              eq_refl (λ j c _, create_cold c.1.1 0%Z) Hnd Hlt) as (H1 & _ & H3).
  split; [exact H1|].
  split; [|split].
  - assert ((110%Z, (0, Fulfilled (VNum 10))) ∈ sched) as Hin by (right; left).
    exact (proj2 (proj2 (H3 110%Z 0 (Fulfilled (VNum 10))
             (key_of "accounts" "u1", Backend getAccounts "u1", 300000%Z)
             Hin eq_refl))).
  - assert ((120%Z, (7, Fulfilled (VNum 17))) ∈ sched) as Hin
      by (right; right; left).
    exact (proj2 (proj2 (H3 120%Z 7 (Fulfilled (VNum 17))
             (key_of "privacy-score" "u1", Backend getPrivacyScore "u1", 600000%Z)
             Hin eq_refl))).
  - assert ((100%Z, (2, Rejected (VStr "HTTP 500"))) ∈ sched) as Hin by left.
    exact (proj2 (proj2 (H3 100%Z 2 (Rejected (VStr "HTTP 500"))
             (key_of "transactions" "u1", Backend (getTransactions 20) "u1", 120000%Z)
             Hin eq_refl))).
Defined.

(** C6 (an unhealthy probe skips the prefetch).  The orchestrator first
    calls the probe and waits for it.  If the probe answers [false] (or any
    falsy value) or fails, the orchestrator returns normally, its promise
    fulfilled with [undefined], and the service is as it was: no producer has
    been called, the cache and the table of fetches in flight are
    unchanged, and nothing is left running. *)
Theorem unhealthy_probe_skips userId healthy clock s :
  match healthy with
  | Fulfilled v => truthy v = false
  | Rejected _ => True
  end →
  let r := resume (prefetchDashboard userId) healthy clock s in
  (∃ k, prefetchDashboard userId = Await isHealthy k) ∧
  r.1 = Done {| result := Fulfilled VUndefined; detached := [] |} ∧
  r.2 = s ∧
  calls r.2 = calls s ∧
  cache r.2 = cache s ∧
  prefetchPromises r.2 = prefetchPromises s.
Proof.
  intros Hh r. subst r. rewrite resume_unhealthy by done.
  split; [by eexists|]. done.
Qed.

Lemma unhealthy_probe_skips_witness :
  resume (prefetchDashboard "u1") (Fulfilled (VBool false)) (λ _, 0%Z) create
    = (Done {| result := Fulfilled VUndefined; detached := [] |}, create) ∧
  resume (prefetchDashboard "u1") (Rejected (VStr "Failed to fetch")) (λ _, 0%Z)
    create
    = (Done {| result := Fulfilled VUndefined; detached := [] |}, create).
Proof.
  destruct (unhealthy_probe_skips "u1" (Fulfilled (VBool false)) (λ _, 0%Z)
              create eq_refl) as (_ & H1 & H2 & _).
  destruct (unhealthy_probe_skips "u1" (Rejected (VStr "Failed to fetch"))
              (λ _, 0%Z) create I) as (_ & H3 & H4 & _).
  split; apply injective_projections; assumption.
Defined.

(** C7, as stated: the resource names in the keys would be those of the
    list of resource producers.  They are not: for the user ["u1"], on a
    fresh service, the keys under which the producers are called are not
    that list. *)
Lemma dashboard_keys_not_producer_names :
  ¬ (calls (resume (prefetchDashboard "u1") (Fulfilled (VBool true)) (λ _, 0%Z)
              create).2).*1
    = (λ name, key_of name "u1") <$> producer_names.
Proof. vm_compute. intros H. discriminate H. Qed.

(** C7, amended.  For every user, the eight [prefetch] calls of the
    orchestrator are made under the keys ["<resource-name>:<userId>"] with
    the resource names [accounts], [accounts-summary], [transactions],
    [transactions-stats], [transactions-recommendations], [savings-summary],
    [ai-insights] and [privacy-score], in this order; when none of them has
    a value in the cache or a fetch in flight, these are the keys under
    which the eight producers are called, and the keys of the table of
    fetches in flight afterwards. *)
Theorem dashboard_cache_keys userId healthy clock s :
  let keys := (λ name, name +:+ ":" +:+ userId) <$> resource_names in
  let r := resume (prefetchDashboard userId) (Fulfilled healthy) clock s in
  (dashboard_calls userId).*1.*1 = keys ∧
  (calls_history (dashboard_calls userId) 0 clock).*2
    = (λ c, Prefetch c.1.1 c.1.2 (Some c.2)) <$> dashboard_calls userId ∧
  (truthy healthy = true →
   r.2 = (run (calls_history (dashboard_calls userId) 0 clock) s).2) ∧
  (truthy healthy = true →
   (∀ j c, dashboard_calls userId !! j = Some c →
      (get c.1.1 (clock j) s).1 = VNull ∧ prefetchPromises s !! c.1.1 = None) →
   (calls r.2).*1 = (calls s).*1 ++ keys ∧
   ∀ j key, keys !! j = Some key →
     prefetchPromises r.2 !! key = Some (length (fetches s) + j)).
Proof.
  intros keys r. split; [done|]. split; [done|]. split.
  - intros Hv. subst r. rewrite resume_healthy by done.
    by rewrite prefetch_each_run.
  - intros Hv Hcold. subst r. rewrite resume_healthy by done. cbn [snd].
    destruct (prefetch_each_cold (dashboard_calls userId) 0 clock s
                (dashboard_keys_NoDup userId) Hcold) as (_ & Hf & Hin & _).
    split.
    + unfold calls. rewrite Hf, !fmap_app. by f_equal.
    + intros j key Hj.
      assert (∃ c, dashboard_calls userId !! j = Some c ∧ c.1.1 = key)
        as (c & Hc & <-).
      { change keys with (dashboard_calls userId).*1.*1 in Hj.
        rewrite !list_lookup_fmap in Hj.
        destruct (dashboard_calls userId !! j) as [c|]; [|done].
        exists c. split; [done|]. by injection Hj. }
      by destruct (Hin j c Hc) as (Hp & _).
Qed.

Lemma dashboard_cache_keys_witness :
  (calls (resume (prefetchDashboard "u1") (Fulfilled (VBool true)) (λ _, 0%Z)
            create).2).*1
  = [ "accounts:u1"; "accounts-summary:u1"; "transactions:u1";
      "transactions-stats:u1"; "transactions-recommendations:u1";
      "savings-summary:u1"; "ai-insights:u1"; "privacy-score:u1" ].
Proof.
  destruct (dashboard_cache_keys "u1" (VBool true) (λ _, 0%Z) create)
    as (_ & _ & _ & H).
  destruct (H eq_refl (λ j c _, create_cold c.1.1 0%Z)) as [H1 _].
  exact H1.
Defined.

(** [Promise.allSettled] is settled when all its inputs are, and then it is
    fulfilled; the [catch] on it changes nothing. *)
Lemma allSettled_settles fs tasks :
  is_Some (outcome_of fs (CatchLog (AllSettled tasks))) ↔
  Forall (λ task, is_Some (outcome_of fs task)) tasks.
Proof.
  assert (∀ ps,
            is_Some ((fix all (ps : list promise) : option (list outcome) :=
                        match ps with
                        | [] => Some []
                        | q :: ps' =>
                            match outcome_of fs q, all ps' with
                            | Some o, Some os => Some (o :: os)
                            | _, _ => None
                            end
                        end) ps) ↔
            Forall (λ task, is_Some (outcome_of fs task)) ps) as Hall.
  { induction ps as [|q ps IH]; [by split; [|eexists]|].
    rewrite Forall_cons, <- IH.
    destruct (outcome_of fs q) as [o|]; [|split; [by intros [] | by intros [[] _]]].
    match goal with |- context [is_Some (?f ps)] => destruct (f ps) as [os|] end.
    - split; [by split; eexists | by eexists].
    - split; [by intros [] | by intros [_ []]]. }
  rewrite <- Hall. simpl.
  match goal with |- context [?f tasks ≫= _] => destruct (f tasks) as [os|] end;
    simpl; split; try done; by eexists.
Qed.

(** After a healthy probe, with none of the eight keys cached or in flight,
    the continuation returns with its eight tasks pending. *)
Lemma dashboard_tasks_pending userId v clock s :
  truthy v = true →
  (∀ j c, dashboard_calls userId !! j = Some c →
     (get c.1.1 (clock j) s).1 = VNull ∧ prefetchPromises s !! c.1.1 = None) →
  let r := resume (prefetchDashboard userId) (Fulfilled v) clock s in
  let tasks := Adopts <$> seq (length (fetches s)) 8 in
  r = (Done (returns_undefined [CatchLog (AllSettled tasks)]), r.2) ∧
  Forall (λ task, outcome_of (fetches r.2) task = None) tasks.
Proof.
  intros Hv Hcold r tasks. subst r. rewrite resume_healthy by done. cbn [snd].
  destruct (prefetch_each_cold (dashboard_calls userId) 0 clock s
              (dashboard_keys_NoDup userId) Hcold) as (Htasks & Hf & _).
  split; [by rewrite Htasks|].
  apply Forall_fmap, Forall_forall. intros p Hp.
  apply elem_of_seq in Hp as [Hge Hlt]. unfold compose. cbn [outcome_of].
  rewrite Hf.
  rewrite lookup_app_r by done.
  destruct ((started <$> dashboard_calls userId) !! (p - length (fetches s)))
    as [f|] eqn:Hp; [|done].
  apply list_lookup_fmap_Some in Hp as (c & -> & _). done.
Qed.

(** C3, as stated: when the promise of [prefetchDashboard] is settled, the
    eight tasks would be settled.  They are not: on a fresh service with a
    healthy probe, the promise is settled when the continuation returns,
    and the tasks are pending. *)
Lemma dashboard_does_not_await :
  ¬ awaits_its_tasks "u1" (Fulfilled (VBool true)) (λ _, 0%Z) create.
Proof.
  intros H.
  destruct (dashboard_tasks_pending "u1" (VBool true) (λ _, 0%Z) create eq_refl
              (λ j c _, create_cold c.1.1 0%Z)) as [Hr Hpending].
  specialize (H _ _ _ Hr eq_refl).
  apply Forall_cons in H as [[o Ho] _].
  apply Forall_cons in Hpending as [Hnone _]. congruence.
Qed.

(** C3, amended.  The promise of [prefetchDashboard] is settled, fulfilled
    with [undefined], as soon as the continuation after the probe returns:
    the orchestrator has one [await], on the probe, and none on its tasks.
    After a healthy probe it has made the eight [prefetch] calls and built
    their join, which it neither awaits nor returns; when none of the keys
    was cached or in flight, the eight tasks and the join are pending at
    that moment.  The join is settled exactly when the eight tasks are. *)
Theorem dashboard_returns_without_awaiting userId healthy clock s :
  let r := resume (prefetchDashboard userId) healthy clock s in
  (∃ c, r.1 = Done c ∧ result c = Fulfilled VUndefined) ∧
  (∀ v, healthy = Fulfilled v → truthy v = true →
     (∀ j c, dashboard_calls userId !! j = Some c →
        (get c.1.1 (clock j) s).1 = VNull ∧ prefetchPromises s !! c.1.1 = None) →
     let tasks := Adopts <$> seq (length (fetches s)) 8 in
     r.1 = Done (returns_undefined [CatchLog (AllSettled tasks)]) ∧
     Forall (λ task, outcome_of (fetches r.2) task = None) tasks ∧
     outcome_of (fetches r.2) (CatchLog (AllSettled tasks)) = None ∧
     ∀ fs, is_Some (outcome_of fs (CatchLog (AllSettled tasks))) ↔
           Forall (λ task, is_Some (outcome_of fs task)) tasks).
Proof.
  intros r. split.
  - subst r. destruct healthy as [v|e].
    + destruct (truthy v) eqn:Hv.
      * rewrite resume_healthy by done. by eexists.
      * rewrite resume_unhealthy by done. by eexists.
    + rewrite resume_unhealthy by done. by eexists.
  - intros v -> Hv Hcold tasks.
    destruct (dashboard_tasks_pending userId v clock s Hv Hcold) as [Hr Hpending].
    fold r in Hr, Hpending. fold tasks in Hr, Hpending.
    split; [by rewrite Hr|]. split; [done|]. split; [|intros fs; apply allSettled_settles].
    apply eq_None_not_Some. intros Hsome.
    apply allSettled_settles in Hsome.
    apply Forall_cons in Hsome as [[o Ho] _].
    apply Forall_cons in Hpending as [Hnone _]. congruence.
Qed.

Lemma dashboard_returns_without_awaiting_witness :
  let r := resume (prefetchDashboard "u1") (Fulfilled (VBool true)) (λ _, 0%Z)
             create in
  r.1 = Done (returns_undefined [CatchLog (AllSettled (Adopts <$> seq 0 8))]) ∧
  Forall (λ task, outcome_of (fetches r.2) task = None) (Adopts <$> seq 0 8).
Proof.
  intros r.
  destruct (dashboard_returns_without_awaiting "u1" (Fulfilled (VBool true))
              (λ _, 0%Z) create) as [_ H].
  destruct (H (VBool true) eq_refl eq_refl (λ j c _, create_cold c.1.1 0%Z))
    as (H1 & H2 & _).
  split; [exact H1 | exact H2].
Defined.

(** * More about the service *)

(** ** [clear] and [clearAll] against a fetch in flight *)

Section clearing.
Implicit Types (key : string) (s : Service) (v : value).

Lemma in_flight_clear key fn ttl p s :
  in_flight key fn ttl p s → in_flight key fn ttl p (clear key s).
Proof.
  intros (Hp & _ & Hf). split; [done|]. split; [|done].
  unfold absent. by rewrite cache_clear.
Qed.

Lemma in_flight_get key fn ttl p now s :
  in_flight key fn ttl p s → in_flight key fn ttl p (get key now s).2.
Proof.
  intros (Hp & Ha & Hf). split; [by rewrite get_promises|].
  split; [by apply absent_get_absent | by rewrite get_fetches].
Qed.

Lemma calls_get key now s : calls (get key now s).2 = calls s.
Proof. unfold calls. by rewrite get_fetches. Qed.
End clearing.

(** X1 ([clear] drops the value, not the fetch).  [clear(k)] removes the
    entry of [k] and nothing else.  On a key without fetch in flight the
    next [prefetch(k, fn', ..)] therefore calls [fn'], whatever was cached.
    On a key whose fetch [p] is in flight, the fetch stays in the table: the
    next [prefetch] joins [p] without calling its producer, and when the
    producer of [p] resolves its value is cached as if [clear] had not been
    called. *)
Theorem clear_drops_value_not_fetch key fn' ttl' now :
  (∀ s,
     prefetchPromises s !! key = None →
     let r := prefetch key fn' ttl' now (clear key s) in
     (get key now (clear key s)).1 = VNull ∧
     r.1 = Adopts (length (fetches s)) ∧
     calls r.2 = calls s ++ [(key, fn')]) ∧
  (∀ fn ttl t0 s0 h v t,
     (get key t0 s0).1 = VNull →
     prefetchPromises s0 !! key = None →
     let p := length (fetches s0) in
     let s1 := (prefetch key fn ttl t0 s0).2 in
     along (rides key) h s1 →
     let s2 := clear key (run h s1).2 in
     let r := prefetch key fn' ttl' now s2 in
     r.1 = Adopts p ∧
     calls r.2 = calls (run h s1).2 ∧
     cache (settle p (Fulfilled v) t r.2) !! key
       = Some {| data := v; timestamp := t; ttl := default DEFAULT_TTL ttl |}).
Proof.
  split.
  - intros s Hp r.
    assert ((get key now (clear key s)).1 = VNull) as Hg
      by (by rewrite get_miss by apply cache_clear).
    split; [done|].
    destruct (prefetch_starts key fn' ttl' now (clear key s) Hg Hp)
      as (Hr & _ & Hc). done.
  - intros fn ttl t0 s0 h v t Hg Hp p s1 Hh s2 r.
    destruct (prefetch_starts key fn ttl t0 s0 Hg Hp) as (_ & Hin & _).
    fold s1 in Hin. fold p in Hin.
    destruct (in_flight_run _ _ _ _ _ _ Hin Hh) as (Hin2 & _ & _).
    apply in_flight_clear in Hin2. fold s2 in Hin2.
    subst r. rewrite (prefetch_joins _ _ _ _ _ _ _ _ Hin2). cbn [fst snd].
    split; [done|]. split; [by rewrite calls_get|].
    apply (in_flight_get _ _ _ _ now) in Hin2.
    destruct (in_flight_settle _ _ _ _ (Fulfilled v) t _ Hin2) as (_ & _ & _ & Hc).
    by rewrite Hc, lookup_insert_eq.
Qed.

Lemma clear_drops_value_not_fetch_witness :
  let s := set "accounts:u1" (VNum 1) None 0 create in
  let s1 := (prefetch "accounts:u1" (Closure 0) None 0 create).2 in
  let r := prefetch "accounts:u1" (Closure 1) None 10 (clear "accounts:u1" s1) in
  calls (prefetch "accounts:u1" (Closure 1) None 10 (clear "accounts:u1" s)).2
    = calls s ++ [("accounts:u1", Closure 1)] ∧
  r.1 = Adopts 0 ∧
  calls r.2 = calls s1.
Proof.
  intros s s1 r.
  destruct (clear_drops_value_not_fetch "accounts:u1" (Closure 1) None 10)
    as [HA HB].
  destruct (HA s eq_refl) as (_ & _ & H1).
  destruct (HB (Closure 0) None 0%Z create [] VNull 0%Z eq_refl eq_refl I)
    as (H2 & H3 & _).
  split; [exact H1|]. split; [exact H2 | exact H3].
Defined.

(** X2 ([clearAll] orphans a fetch in flight).  A fetch [p] of the key [k]
    is pending when [clearAll()] is called.  The next [prefetch(k, fn', ..)]
    calls [fn'] and starts a second fetch [p'] while [p] is still pending.
    When the producer of the orphan [p] then settles, its callback deletes
    the entry of [k] from the table, which is the entry of [p']: [p'] is
    pending and no longer in the table, so that after a rejection of [p]
    the next [prefetch] of [k] calls a producer a third time.  And if [p']
    is fulfilled first and [p] after it, the cache holds the value of [p],
    the request that was made first. *)
Theorem clearAll_orphans_fetch p f s fn' ttl' now o t :
  fetches s !! p = Some f →
  settled f = None →
  let k := fetch_key f in
  let p' := length (fetches s) in
  let r := prefetch k fn' ttl' now (clearAll s) in
  let s3 := settle p o t r.2 in
  r.1 = Adopts p' ∧
  calls r.2 = calls s ++ [(k, fn')] ∧
  prefetchPromises r.2 !! k = Some p' ∧
  pending p r.2 ∧ pending p' r.2 ∧
  prefetchPromises s3 !! k = None ∧ pending p' s3 ∧
  (∀ error fn'' ttl'' now',
     o = Rejected error →
     calls (prefetch k fn'' ttl'' now' s3).2 = calls s3 ++ [(k, fn'')]) ∧
  (∀ v v' t',
     o = Fulfilled v →
     cache (settle p o t (settle p' (Fulfilled v') t' r.2)) !! k
       = Some {| data := v; timestamp := t; ttl := fetch_ttl f |}).
Proof.
  intros Hf Hs k p' r s3.
  assert ((get k now (clearAll s)).1 = VNull) as Hg
    by (by rewrite get_miss by apply lookup_empty).
  assert (prefetchPromises (clearAll s) !! k = None) as Hp by apply lookup_empty.
  destruct (prefetch_starts k fn' ttl' now (clearAll s) Hg Hp) as (Hr & Hin & Hc).
  pose proof (prefetch_start k fn' ttl' now (clearAll s) Hg Hp) as Hst.
  fold r in Hr, Hin, Hc, Hst. simpl in Hr, Hin, Hc. fold p' in Hr, Hin.
  assert (fetches r.2 = fetches s ++
            [ {| fetch_key := k; fetch_fn := fn';
                 fetch_ttl := default DEFAULT_TTL ttl'; settled := None |} ])
    as Hfr by (by rewrite Hst).
  assert (p < p') as Hlt by (by apply lookup_lt_Some in Hf).
  assert (fetches r.2 !! p = Some f) as Hfp
    by (rewrite Hfr; by apply lookup_app_l_Some).
  destruct Hin as (Htab & Habs & Hfp').
  assert (prefetchPromises s3 !! k = None ∧ pending p' s3 ∧
          calls s3 = calls r.2 ∧
          (∀ error, o = Rejected error → cache s3 = cache r.2)) as (H1 & H2 & H3 & H4).
  { subst s3. rewrite (settle_pending _ _ _ _ _ Hfp) by done.
    split; [apply lookup_delete_eq|]. split; [|split].
    - exists {| fetch_key := k; fetch_fn := fn';
                fetch_ttl := default DEFAULT_TTL ttl'; settled := None |}.
      split; [|done]. unfold mark. simpl.
      rewrite list_lookup_insert_ne by lia. destruct o; exact Hfp'.
    - rewrite <- (settle_pending _ _ _ _ _ Hfp) by done. apply settle_calls.
    - by intros error ->. }
  split; [done|]. split; [done|]. split; [done|].
  split; [by eexists|]. split; [by eexists|].
  split; [done|]. split; [done|]. split.
  - intros error fn'' ttl'' now' Ho.
    destruct (prefetch_starts k fn'' ttl'' now' s3) as (_ & _ & Hc');
      [|done|done].
    apply absent_get_null, (absent_same k r.2); [|done].
    by rewrite (H4 _ Ho).
  - intros v v' t' ->.
    assert (fetches (settle p' (Fulfilled v') t' r.2) !! p = Some f) as Hfp2
      by (rewrite settle_fetch_other by lia; done).
    rewrite (settle_pending _ _ _ _ _ Hfp2) by done. simpl.
    by rewrite lookup_insert_eq.
Qed.

Lemma clearAll_orphans_fetch_witness :
  let s := (prefetch "accounts:u1" (Closure 0) (Some 300000%Z) 0 create).2 in
  let r := prefetch "accounts:u1" (Closure 1) (Some 300000%Z) 10 (clearAll s) in
  let s3 := settle 0 (Rejected (VStr "HTTP 500")) 20 r.2 in
  r.1 = Adopts 1 ∧
  calls r.2 = [("accounts:u1", Closure 0); ("accounts:u1", Closure 1)] ∧
  prefetchPromises s3 !! "accounts:u1" = None ∧ pending 1 s3.
Proof.
  intros s r s3.
  destruct (clearAll_orphans_fetch 0
              {| fetch_key := "accounts:u1"; fetch_fn := Closure 0;
                 fetch_ttl := 300000; settled := None |}
              s (Closure 1) (Some 300000%Z) 10 (Rejected (VStr "HTTP 500")) 20
              eq_refl eq_refl) as (H1 & H2 & _ & _ & _ & H6 & H7 & _).
  split; [exact H1|]. split; [exact H2|]. split; [exact H6 | exact H7].
Defined.

(** X3 (read-through).  A fetch of [key] started by [prefetch(key, fn, ttl)]
    is fulfilled at time [t] with a value [v] other than [null] ([undefined]
    is such a value).  Afterwards, and whatever happens that is not about
    [key], a [prefetch(key, fn', ..)] made no later than [ttl] after [t]
    answers [v] at once, calls no producer and leaves the service as it is;
    made later than that, it calls [fn'] and starts a new fetch. *)
Theorem fetched_value_is_served key fn ttl t0 s0 h0 v t h fn' ttl' now :
  (get key t0 s0).1 = VNull →
  prefetchPromises s0 !! key = None →
  let p := length (fetches s0) in
  let s1 := (prefetch key fn ttl t0 s0).2 in
  along (rides key) h0 s1 →
  v ≠ VNull →
  let s2 := settle p (Fulfilled v) t (run h0 s1).2 in
  quiet key h s2 →
  let s3 := (run h s2).2 in
  let r := prefetch key fn' ttl' now s3 in
  ((now - t ≤ default DEFAULT_TTL ttl)%Z → r = (Immediate (Fulfilled v), s3)) ∧
  ((now - t > default DEFAULT_TTL ttl)%Z →
     r.1 = Adopts (length (fetches s3)) ∧
     calls r.2 = calls s3 ++ [(key, fn')] ∧
     pending (length (fetches s3)) r.2).
Proof.
  intros Hg Hp p s1 Hh0 Hv s2 Hh s3 r.
  destruct (prefetch_starts key fn ttl t0 s0 Hg Hp) as (_ & Hin & _).
  fold s1 in Hin. fold p in Hin.
  destruct (in_flight_settled _ _ _ _ h0 h (Fulfilled v) t _ Hin Hh0 Hh)
    as (_ & Hp3 & Hc3).
  fold s2 s3 in Hp3, Hc3. split; intros Ht.
  - pose proof (get_fresh _ _ _ _ Hc3 Ht) as Hget. simpl in Hget.
    subst r. rewrite prefetch_hit; rewrite Hget; done.
  - pose proof (get_stale _ _ _ _ Hc3 Ht) as Hget.
    destruct (prefetch_starts key fn' ttl' now s3) as (Hr & Hin' & Hc');
      [by rewrite Hget | done |].
    fold r in Hr, Hin', Hc'. split; [done|]. split; [done|].
    destruct Hin' as (_ & _ & Hf). by eexists.
Qed.

Lemma fetched_value_is_served_witness :
  let s1 := (prefetch "tx:u1" (Closure 0) (Some 120000%Z) 0 create).2 in
  let s2 := settle 0 (Fulfilled VUndefined) 50 s1 in
  prefetch "tx:u1" (Closure 1) None 120050 s2 = (Immediate (Fulfilled VUndefined), s2) ∧
  calls (prefetch "tx:u1" (Closure 1) None 120051 s2).2
    = calls s2 ++ [("tx:u1", Closure 1)].
Proof.
  intros s1 s2.
  assert (VUndefined ≠ VNull) as Hv by discriminate.
  destruct (fetched_value_is_served "tx:u1" (Closure 0) (Some 120000%Z) 0 create
              [] VUndefined 50 [] (Closure 1) None 120050 eq_refl eq_refl I Hv I)
    as [H1 _].
  destruct (fetched_value_is_served "tx:u1" (Closure 0) (Some 120000%Z) 0 create
              [] VUndefined 50 [] (Closure 1) None 120051 eq_refl eq_refl I Hv I)
    as [_ H2].
  split.
  - apply H1. simpl. lia.
  - destruct H2 as (_ & H2 & _); [simpl; lia | exact H2].
Defined.

(** X4 (a write during a fetch).  While a fetch [p] of the key [k] is
    pending, a caller writes [set(k, v, ttl)] with [v] other than [null].
    The cache is looked at before the table of fetches: until the written
    entry expires, [prefetch(k, ..)] answers [v] at once and leaves the
    service as it is, the fetch still pending.  When the producer of [p]
    then resolves with [v'], its callback overwrites the entry with [v'] and
    the time-to-live of the fetch; when it rejects, the written entry
    stays. *)
Theorem write_during_fetch p f s v ttl t fn' ttl' now :
  fetches s !! p = Some f →
  settled f = None →
  v ≠ VNull →
  (now - t ≤ default DEFAULT_TTL ttl)%Z →
  let k := fetch_key f in
  let s1 := set k v ttl t s in
  prefetch k fn' ttl' now s1 = (Immediate (Fulfilled v), s1) ∧
  pending p s1 ∧
  (∀ v' t',
     cache (settle p (Fulfilled v') t' s1) !! k
       = Some {| data := v'; timestamp := t'; ttl := fetch_ttl f |}) ∧
  (∀ error t',
     cache (settle p (Rejected error) t' s1) !! k
       = Some {| data := v; timestamp := t; ttl := default DEFAULT_TTL ttl |}).
Proof.
  intros Hf Hs Hv Ht k s1.
  assert (cache s1 !! k
          = Some {| data := v; timestamp := t; ttl := default DEFAULT_TTL ttl |})
    as Hc by (subst s1; by rewrite cache_set, lookup_insert_eq).
  assert (fetches s1 !! p = Some f) as Hf1 by done.
  split.
  - pose proof (get_fresh _ _ _ _ Hc Ht) as Hget. simpl in Hget.
    rewrite prefetch_hit; rewrite Hget; done.
  - split; [by eexists|]. split.
    + intros v' t'. rewrite (settle_pending _ _ _ _ _ Hf1) by done. simpl.
      by rewrite lookup_insert_eq.
    + intros error t'. by rewrite (settle_pending _ _ _ _ _ Hf1) by done.
Qed.

Lemma write_during_fetch_witness :
  let s := (prefetch "accounts:u1" (Closure 0) (Some 300000%Z) 0 create).2 in
  let s1 := set "accounts:u1" (VArray []) None 10 s in
  prefetch "accounts:u1" (Closure 1) None 20 s1 = (Immediate (Fulfilled (VArray [])), s1) ∧
  cache (settle 0 (Fulfilled (VNum 7)) 30 s1) !! "accounts:u1"
    = Some {| data := VNum 7; timestamp := 30; ttl := 300000 |}.
Proof.
  intros s s1.
  assert (VArray [] ≠ VNull) as Hv by discriminate.
  assert ((20 - 10 ≤ default DEFAULT_TTL None)%Z) as Ht by (vm_compute; discriminate).
  destruct (write_during_fetch 0
              {| fetch_key := "accounts:u1"; fetch_fn := Closure 0;
                 fetch_ttl := 300000; settled := None |}
              s (VArray []) None 10 (Closure 1) None 20 eq_refl eq_refl Hv Ht)
    as (H1 & _ & H3 & _).
  split; [exact H1 | exact (H3 (VNum 7) 30%Z)].
Defined.

Section histories.
Implicit Types (s : Service) (h : list (Z * event)).

Lemma reachable_run h s : reachable s → reachable (run h s).2.
Proof.
  revert s. induction h as [|[now e] h IH]; intros s Hs; [done|].
  rewrite run_cons. apply IH. by constructor.
Qed.
End histories.

(** X5 (the table holds pending promises only).  Start from a new service
    and let anything happen: calls of [get], [set], [clear], [clearAll] and
    [prefetch] with any arguments and settlements of any promises, in any
    order and at any times.  In the state reached, every entry of the table
    of fetches in flight is the promise of a fetch that was started for the
    key it is under and that has not settled. *)
Theorem table_holds_pending_promises h key p :
  let s := (run h create).2 in
  prefetchPromises s !! key = Some p →
  ∃ f, fetches s !! p = Some f ∧ fetch_key f = key ∧ settled f = None.
Proof.
  intros s. apply reachable_tracked_pending. apply reachable_run. constructor.
Qed.

Lemma table_holds_pending_promises_witness :
  ∃ f, fetches (prefetch "tx:u1" (Closure 0) None 0 create).2 !! 0%nat = Some f ∧
       fetch_key f = "tx:u1" ∧ settled f = None.
Proof.
  exact (table_holds_pending_promises [(0%Z, Prefetch "tx:u1" (Closure 0) None)]
           "tx:u1" 0 eq_refl).
Defined.

(** ** Running the orchestrator again *)

Section rerun.
Implicit Types (key userId : string) (s : Service) (clock : nat → Z).

Lemma in_flight_get_any key fn ttl p k now s :
  in_flight key fn ttl p s → in_flight key fn ttl p (get k now s).2.
Proof.
  intros Hin. destruct (decide (k = key)) as [->|Hne];
    [by apply in_flight_get|].
  destruct Hin as (Hp & Ha & Hf). split; [by rewrite get_promises|].
  split; [|by rewrite get_fetches].
  apply (absent_same key s); [by apply get_other | done].
Qed.

(** Calls for keys whose fetches are in flight join them: no promise is
    created and the table stays as it is. *)
Lemma prefetch_each_joins (cs : list (string * producer * Z)) i clock s n0 :
  (∀ j c, cs !! j = Some c → ∃ fn ttl, in_flight c.1.1 fn ttl (n0 + j) s) →
  let r := prefetch_each cs i clock s in
  r.1 = Adopts <$> seq n0 (length cs) ∧
  fetches r.2 = fetches s ∧
  prefetchPromises r.2 = prefetchPromises s ∧
  (∀ key fn ttl p, in_flight key fn ttl p s → in_flight key fn ttl p r.2).
Proof.
  revert i s n0. induction cs as [|[[k fn0] ttl0] cs IH]; intros i s n0 Hin;
    [done|].
  destruct (Hin 0 _ eq_refl) as (fn & ttl & Hk). rewrite Nat.add_0_r in Hk.
  simpl in Hk. simpl.
  rewrite (prefetch_joins _ _ _ _ _ _ _ _ Hk).
  specialize (IH (S i) (get k (clock i) s).2 (S n0)).
  destruct IH as (Ht & Hf & Hp & Hkeep).
  { intros j c Hj. destruct (Hin (S j) c Hj) as (fn' & ttl' & Hc).
    exists fn', ttl'. apply in_flight_get_any.
    by replace (S n0 + j) with (n0 + S j) by lia. }
  destruct (prefetch_each cs (S i) clock (get k (clock i) s).2) as [tasks s2].
  simpl in *. rewrite Ht, Hf, Hp, get_fetches, get_promises.
  split; [done|]. split; [done|]. split; [done|].
  intros key fn' ttl' p Hkey. by apply Hkeep, in_flight_get_any.
Qed.


Lemma hover_keys_differ userId :
  key_of "accounts" userId ≠ key_of "transactions" userId.
Proof. unfold key_of. simpl. discriminate. Qed.
End rerun.

(** X6 (running the orchestrator while its fetches are in flight).  The
    provider of the application calls [prefetchDashboard] several times for
    one user.  After a first run on keys that were neither cached nor in
    flight, and whatever has happened since that left the eight fetches in
    flight, a second run with a healthy probe calls no producer and creates
    no promise: its eight tasks are the eight promises of the first run, and
    the table of fetches in flight is unchanged. *)
Theorem dashboard_rerun_joins userId healthy healthy' clock clock' s h :
  truthy healthy = true →
  truthy healthy' = true →
  (∀ j c, dashboard_calls userId !! j = Some c →
     (get c.1.1 (clock j) s).1 = VNull ∧
     prefetchPromises s !! c.1.1 = None) →
  let r := resume (prefetchDashboard userId) (Fulfilled healthy) clock s in
  (∀ j c, dashboard_calls userId !! j = Some c → along (rides c.1.1) h r.2) →
  let s' := (run h r.2).2 in
  let r' := resume (prefetchDashboard userId) (Fulfilled healthy') clock' s' in
  r'.1 = r.1 ∧
  calls r'.2 = calls s' ∧
  fetches r'.2 = fetches s' ∧
  prefetchPromises r'.2 = prefetchPromises s'.
Proof.
  intros Hv Hv' Hcold r Hh s' r'.
  destruct (prefetch_each_cold (dashboard_calls userId) 0 clock s
              (dashboard_keys_NoDup userId) Hcold) as (Htasks & _ & Hin & _).
  subst r' s' r. rewrite !resume_healthy by done. rewrite resume_healthy in Hh by done.
  cbn [fst snd] in *.
  set (s1 := (prefetch_each (dashboard_calls userId) 0 clock s).2) in *.
  destruct (prefetch_each_joins (dashboard_calls userId) 0 clock' (run h s1).2
              (length (fetches s))) as (Ht' & Hf' & Hp' & _).
  { intros j c Hj. exists c.1.2, c.2.
    by destruct (in_flight_run _ _ _ _ _ _ (Hin j c Hj) (Hh j c Hj)). }
  rewrite Htasks, Ht'. split; [done|]. unfold calls. by rewrite Hf', Hp'.
Qed.

Lemma dashboard_rerun_joins_witness :
  let r := resume (prefetchDashboard "u1") (Fulfilled (VBool true)) (λ _, 0%Z)
             create in
  let s' := (run [(5%Z, Get "accounts:u1")] r.2).2 in
  let r' := resume (prefetchDashboard "u1") (Fulfilled (VBool true)) (λ _, 1000%Z)
              s' in
  r'.1 = r.1 ∧ calls r'.2 = calls s'.
Proof.
  intros r s' r'.
  assert (∀ j c, dashboard_calls "u1" !! j = Some c →
            along (rides c.1.1) [(5%Z, Get "accounts:u1")] r.2) as Hh.
  { intros j c Hj. split; [|exact I].
    destruct (decide (c.1.1 = "accounts:u1")) as [->|Hne];
      [right; by left | right; right; simpl; congruence]. }
  destruct (dashboard_rerun_joins "u1" (VBool true) (VBool true) (λ _, 0%Z)
              (λ _, 1000%Z) create [(5%Z, Get "accounts:u1")] eq_refl eq_refl
              (λ j c _, create_cold c.1.1 0%Z) Hh) as (H1 & H2 & _).
  split; [exact H1 | exact H2].
Defined.



(** ** [prefetchOnHover] *)

Section hover.
Implicit Types (key userId : string) (s : Service) (clock : nat → Z).

(** A [get] that answers a value has changed nothing. *)
Lemma get_value_keeps key now s : (get key now s).1 ≠ VNull → (get key now s).2 = s.
Proof.
  unfold get. destruct (cache s !! key) as [entry|]; [|done].
  by destruct (_ >? _)%Z.
Qed.

Lemma is_null_spec v : is_null v = true ↔ v = VNull.
Proof. by destruct v. Qed.

Lemma is_null_false v : is_null v = false ↔ v ≠ VNull.
Proof. by destruct v. Qed.

(** With nothing for its two keys, [prefetchOnHover] makes its two [get]s
    and starts the orchestrator. *)
Lemma hover_starts_when_absent userId clock s :
  absent (key_of "accounts" userId) s →
  absent (key_of "transactions" userId) s →
  (prefetchOnHover userId clock s).1 = Some (prefetchDashboard userId) ∧
  (prefetchOnHover userId clock s).2
    = (get (key_of "transactions" userId) (clock 1)
         (get (key_of "accounts" userId) (clock 0) s).2).2.
Proof.
  intros Hacc Htx. unfold prefetchOnHover.
  pose proof (absent_get_null _ (clock 0) s Hacc) as Ha.
  assert (absent (key_of "transactions" userId)
            (get (key_of "accounts" userId) (clock 0) s).2) as Htx1.
  { apply (absent_same _ s); [|done]. apply get_other, hover_keys_differ. }
  pose proof (absent_get_null _ (clock 1) _ Htx1) as Hb.
  destruct (get (key_of "accounts" userId) (clock 0) s) as [a s1].
  simpl in *. subst a. simpl.
  destruct (get (key_of "transactions" userId) (clock 1) s1) as [b s2].
  simpl in *. by subst b.
Qed.
End hover.

(** X8 ([prefetchOnHover] looks before it starts).  [prefetchOnHover] calls
    no producer and leaves the table of fetches in flight alone; in the
    cache it can only evict a stale entry of the two keys it probes,
    [accounts:<userId>] and [transactions:<userId>].  If the first has a
    fresh value other than [null], nothing at all changes, the second key is
    not read and no orchestrator run is started.  If the first has nothing
    and the second has a value, no run is started either.  Only when [get]
    has nothing for both is [prefetchDashboard(userId)] started, and then
    neither key has a value in the cache. *)
Theorem hover_looks_before_it_starts userId clock s :
  let acc := key_of "accounts" userId in
  let tx := key_of "transactions" userId in
  let r := prefetchOnHover userId clock s in
  fetches r.2 = fetches s ∧
  prefetchPromises r.2 = prefetchPromises s ∧
  (∀ k, k ≠ acc → k ≠ tx → cache r.2 !! k = cache s !! k) ∧
  ((get acc (clock 0) s).1 ≠ VNull → r = (None, s)) ∧
  ((get acc (clock 0) s).1 = VNull → (get tx (clock 1) s).1 ≠ VNull →
     r = (None, (get acc (clock 0) s).2)) ∧
  ((get acc (clock 0) s).1 = VNull → (get tx (clock 1) s).1 = VNull →
     r.1 = Some (prefetchDashboard userId) ∧ absent acc r.2 ∧ absent tx r.2).
Proof.
  intros acc tx r.
  pose proof (get_fetches acc (clock 0) s) as Hf1.
  pose proof (get_promises acc (clock 0) s) as Hp1.
  pose proof (get_value_keeps acc (clock 0) s) as Hk1.
  pose proof (absent_after_get acc (clock 0) s) as Ha1.
  assert (∀ k, k ≠ acc → cache (get acc (clock 0) s).2 !! k = cache s !! k)
    as Hc1 by (intros k Hk; by apply get_other).
  subst r. unfold prefetchOnHover. fold acc tx.
  destruct (get acc (clock 0) s) as [a s1]. simpl in *.
  destruct (is_null a) eqn:Ha; simpl.
  - apply is_null_spec in Ha as ->.
    pose proof (get_fetches tx (clock 1) s1) as Hf2.
    pose proof (get_promises tx (clock 1) s1) as Hp2.
    pose proof (get_value_keeps tx (clock 1) s1) as Hk2.
    pose proof (absent_after_get tx (clock 1) s1) as Ha2.
    assert (∀ k, k ≠ tx → cache (get tx (clock 1) s1).2 !! k = cache s1 !! k)
      as Hc2 by (intros k Hk; by apply get_other).
    assert ((get tx (clock 1) s1).1 = (get tx (clock 1) s).1) as Hsame.
    { apply get_value, Hc1. intros Heq. by apply (hover_keys_differ userId). }
    destruct (get tx (clock 1) s1) as [b s2]. simpl in *. subst b.
    destruct (is_null (get tx (clock 1) s).1) eqn:Hb; simpl.
    + apply is_null_spec in Hb.
      split; [congruence|]. split; [congruence|].
      split; [intros k Hka Hkt; by rewrite Hc2, Hc1|].
      split; [done|]. split; [by intros _ Hne|]. intros _ _.
      split; [done|]. split; [|by apply Ha2].
      apply (absent_same acc s1); [|by apply Ha1].
      apply Hc2. apply hover_keys_differ.
    + apply is_null_false in Hb. rewrite (Hk2 Hb) in *.
      split; [done|]. split; [done|].
      split; [intros k Hka Hkt; by apply Hc1|].
      split; [done|]. split; [done|]. by intros _ Hnull.
  - apply is_null_false in Ha. rewrite (Hk1 Ha).
    split; [done|]. split; [done|]. split; [done|].
    split; [done|]. split; by intros Hnull.
Qed.

(** X9 (hovering while the dashboard is being fetched).  After a run of the
    orchestrator on keys that were neither cached nor in flight, and while
    its eight fetches are in flight, [prefetchOnHover] of the same user
    finds nothing cached and starts [prefetchDashboard] again.  That second
    run, once its probe has answered healthy, calls no producer: its tasks
    are the eight promises of the first run. *)
Theorem hover_during_prefetch userId healthy healthy' clock clock1 clock2 s h :
  truthy healthy = true →
  truthy healthy' = true →
  (∀ j c, dashboard_calls userId !! j = Some c →
     (get c.1.1 (clock j) s).1 = VNull ∧
     prefetchPromises s !! c.1.1 = None) →
  let r := resume (prefetchDashboard userId) (Fulfilled healthy) clock s in
  (∀ j c, dashboard_calls userId !! j = Some c → along (rides c.1.1) h r.2) →
  let s1 := (run h r.2).2 in
  let hover := prefetchOnHover userId clock1 s1 in
  hover.1 = Some (prefetchDashboard userId) ∧
  calls hover.2 = calls s1 ∧
  let r' := resume (prefetchDashboard userId) (Fulfilled healthy') clock2 hover.2 in
  r'.1 = r.1 ∧ calls r'.2 = calls s1.
Proof.
  intros Hv Hv' Hcold r Hh s1 hover.
  destruct (prefetch_each_cold (dashboard_calls userId) 0 clock s
              (dashboard_keys_NoDup userId) Hcold) as (Htasks & _ & Hin & _).
  assert (∀ j c, dashboard_calls userId !! j = Some c →
            in_flight c.1.1 c.1.2 c.2 (length (fetches s) + j) s1) as Hin1.
  { intros j c Hj. specialize (Hh j c Hj). subst s1 r.
    rewrite resume_healthy in * by done. cbn [fst snd] in *.
    by destruct (in_flight_run _ _ _ _ _ _ (Hin j c Hj) Hh). }
  destruct (Hin1 0 _ eq_refl) as (_ & Hacc & _).
  destruct (Hin1 2 _ eq_refl) as (_ & Htx & _). cbn [fst snd] in Hacc, Htx.
  destruct (hover_starts_when_absent userId clock1 s1 Hacc Htx)
    as (Hstart & Hs2).
  fold hover in Hstart, Hs2. split; [done|].
  split; [unfold calls; by rewrite Hs2, !get_fetches|].
  intros r'. subst r' r. rewrite !resume_healthy by done. cbn [fst snd].
  destruct (prefetch_each_joins (dashboard_calls userId) 0 clock2 hover.2
              (length (fetches s))) as (Ht' & Hf' & _).
  { intros j c Hj. exists c.1.2, c.2. rewrite Hs2.
    by apply in_flight_get_any, in_flight_get_any, Hin1. }
  rewrite Htasks, Ht'. split; [done|].
  unfold calls. by rewrite Hf', Hs2, !get_fetches.
Qed.

Lemma hover_looks_before_it_starts_witness :
  let s := set "accounts:u1" (VArray []) None 0 create in
  prefetchOnHover "u1" (λ _, 10%Z) s = (None, s) ∧
  (prefetchOnHover "u1" (λ _, 10%Z) create).1 = Some (prefetchDashboard "u1").
Proof.
  intros s.
  destruct (hover_looks_before_it_starts "u1" (λ _, 10%Z) s)
    as (_ & _ & _ & H1 & _).
  destruct (hover_looks_before_it_starts "u1" (λ _, 10%Z) create)
    as (_ & _ & _ & _ & _ & H2).
  split.
  - apply H1. vm_compute. discriminate.
  - by destruct (H2 eq_refl eq_refl).
Defined.

Lemma hover_during_prefetch_witness :
  let r := resume (prefetchDashboard "u1") (Fulfilled (VBool true)) (λ _, 0%Z)
             create in
  let s1 := (run [] r.2).2 in
  let hover := prefetchOnHover "u1" (λ _, 500%Z) s1 in
  hover.1 = Some (prefetchDashboard "u1") ∧
  calls hover.2 = calls s1.
Proof.
  intros r s1 hover.
  destruct (hover_during_prefetch "u1" (VBool true) (VBool true) (λ _, 0%Z)
              (λ _, 500%Z) (λ _, 600%Z) create [] eq_refl eq_refl
              (λ j c _, create_cold c.1.1 0%Z) (λ j c _, I)) as (H1 & H2 & _).
  split; [exact H1 | exact H2].
Defined.

(** ** The provider *)

Section provider.
Implicit Types (p : ProviderProps) (st : ProviderState) (a : provider_action).

Lemma signed_in_Some p id :
  signed_in p = Some id → user_id p = Some id ∧ id ≠ "".
Proof.
  unfold signed_in. destruct (user_id p) as [u|]; [|done].
  destruct (String.eqb_spec u ""); [done|]. by intros [= ->].
Qed.

(** One run of the effect: what it may do, given the cell. *)
Lemma provider_effect_bound idle p ref :
  let r := provider_effect idle p ref in
  length (filter (λ a, scheduled a = true) r.1) + (if r.2 then 0 else 1)
    ≤ (if ref then 0 else 1) ∧
  length r.1 + (if r.2 then 0 else 2)
    ≤ (if ref then 0 else 2) + (if decide (pathname p = "/") then 1 else 0) ∧
  (∀ a, a ∈ r.1 →
     action_user a ≠ "" ∧ isLoaded p = true ∧ user_id p = Some (action_user a)).
Proof.
  unfold provider_effect. destruct (isLoaded p) eqn:Hl; simpl;
    [|destruct ref; (split; [lia|]; split; [case_decide; lia|]);
      by intros a Ha%elem_of_nil].
  destruct (signed_in p) as [id|] eqn:Hid; simpl;
    [|destruct ref; (split; [lia|]; split; [case_decide; lia|]);
      by intros a Ha%elem_of_nil].
  apply signed_in_Some in Hid as [Hu Hne].
  assert ((if decide (pathname p = "/") then 1 else 0)
          = length (if String.eqb (pathname p) "/" then [CallNow id] else []))
    as -> by (case_decide as Hp; destruct (String.eqb_spec (pathname p) "/"); done).
  destruct ref, idle, (String.eqb (pathname p) "/"); simpl;
    (split; [lia|]; split; [lia|]);
    intros a Ha; rewrite ?elem_of_cons, elem_of_nil in Ha;
    repeat (destruct Ha as [->|Ha]; [done|]); done.
Qed.

Lemma provider_render_bound idle p st :
  let r := provider_render idle p st in
  length (filter (λ a, scheduled a = true) r.1)
    + (if prefetchedRef r.2 then 0 else 1)
    ≤ (if prefetchedRef st then 0 else 1) ∧
  length r.1 + (if prefetchedRef r.2 then 0 else 2)
    ≤ (if prefetchedRef st then 0 else 2)
      + (if decide (pathname p = "/") then 1 else 0) ∧
  (∀ a, a ∈ r.1 →
     action_user a ≠ "" ∧ isLoaded p = true ∧ user_id p = Some (action_user a)).
Proof.
  unfold provider_render. case_decide as Hd; simpl.
  - split; [lia|]. split; [case_decide; lia|]. by intros a Ha%elem_of_nil.
  - pose proof (provider_effect_bound idle p (prefetchedRef st)) as H.
    by destruct (provider_effect idle p (prefetchedRef st)) as [acts ref].
Qed.

Lemma provider_renders_bound idle ps st :
  let r := provider_renders idle ps st in
  length (filter (λ a, scheduled a = true) r.1)
    ≤ (if prefetchedRef st then 0 else 1) ∧
  length r.1
    ≤ (if prefetchedRef st then 0 else 2)
      + length (filter (λ p, pathname p = "/") ps) ∧
  (∀ a, a ∈ r.1 →
     action_user a ≠ "" ∧
     ∃ p, p ∈ ps ∧ isLoaded p = true ∧ user_id p = Some (action_user a)).
Proof.
  revert st. induction ps as [|p ps IH]; intros st; simpl.
  - split; [lia|]. split; [lia|]. by intros a Ha%elem_of_nil.
  - pose proof (provider_render_bound idle p st) as (H1 & H2 & H3).
    destruct (provider_render idle p st) as [acts st1]. simpl in *.
    specialize (IH st1). destruct IH as (I1 & I2 & I3).
    destruct (provider_renders idle ps st1) as [acts' st2]. simpl in *.
    rewrite filter_app, !length_app. split; [lia|]. split.
    + rewrite filter_cons. case_decide; simpl; lia.
    + intros a [Ha|Ha]%elem_of_app.
      * destruct (H3 a Ha) as (Hne & Hl & Hu). split; [done|].
        exists p. split; [by left | done].
      * destruct (I3 a Ha) as (Hne & q & Hq & Hl & Hu). split; [done|].
        exists q. split; [by right | done].
Qed.
End provider.

(** X10 (the provider warms up once).  Over any sequence of renders of
    [PrefetchProvider], from its mounting: at most one prefetch is ever put
    off to idle time or to a timer; the number of [prefetchDashboard] calls
    it makes or puts off is at most two plus the number of renders on the
    path ["/"], so that once one user has been warmed up a render for
    another user starts a prefetch only on ["/"]; and every call is for a
    user id that is not empty and that a render had with the user loaded. *)
Theorem provider_warms_up_once hasIdleCallback ps :
  let actions := (provider_renders hasIdleCallback ps provider_mount).1 in
  length (filter (λ a, scheduled a = true) actions) ≤ 1 ∧
  length actions ≤ 2 + length (filter (λ p, pathname p = "/") ps) ∧
  (∀ a, a ∈ actions →
     action_user a ≠ "" ∧
     ∃ p, p ∈ ps ∧ isLoaded p = true ∧ user_id p = Some (action_user a)).
Proof. apply (provider_renders_bound hasIdleCallback ps provider_mount). Qed.

(** ** The backend client *)

Section client.
Implicit Types (o : RequestOptions) (r : Response) (v : value).


End client.

(** X11 ([request] answers only a good response).  [request] resolves with
    [data] exactly when [fetch] gave a response that is [ok] and whose body
    parsed to [data].  In every other case it rejects: a failure of [fetch]
    or of the parsing of a good response goes through as it is, and a
    response that is not [ok] is never turned into a value, whatever its
    body. *)
Theorem request_answers_only_good_response baseURL endpoint o f :
  let answer := (request baseURL endpoint o).2 f in
  (∀ data, answer = inl data ↔
     ∃ r, f = Responded r ∧ ok r = true ∧ json r = Fulfilled data) ∧
  (∀ e, f = NetworkFailure e → answer = inr (Thrown e)) ∧
  (∀ r e, f = Responded r → ok r = true → json r = Rejected e →
     answer = inr (Thrown e)).
Proof.
  simpl. split; [|split].
  - intros data. split.
    + destruct f as [e|r]; simpl; [done|].
      destruct (ok r) eqn:Hok; simpl.
      * destruct (json r) eqn:Hj; [|done]. intros [= ->]. by exists r.
      * by destruct (read_property _ _).
    + intros (r & -> & Hok & Hj). simpl. by rewrite Hok, Hj.
  - by intros e ->.
  - intros r e -> Hok Hj. simpl. by rewrite Hok, Hj.
Qed.



(** X13 (what [request] sends).  The request goes to the base URL followed
    by the endpoint, with the method [GET] when none is given, the
    credentials mode ["include"] and the JSON content type.  It carries a
    body only when the method is not [GET] and the body given is truthy: a
    [GET] never has a body, and neither has a [POST] of [0], [""], [false]
    or [null].  It carries the header [x-clerk-user-id] exactly when a user
    id that is not empty is given, and then with that id. *)
Theorem request_sends baseURL endpoint o :
  let sent := (request baseURL endpoint o).1 in
  sent.1 = baseURL +:+ endpoint ∧
  method sent.2 = default GET (opt_method o) ∧
  credentials sent.2 = "include" ∧
  ("Content-Type", "application/json") ∈ headers sent.2 ∧
  (method sent.2 = GET → body sent.2 = None) ∧
  (truthy (opt_body o) = false → body sent.2 = None) ∧
  (method sent.2 ≠ GET → truthy (opt_body o) = true →
     body sent.2 = Some (opt_body o)) ∧
  (∀ id, ("x-clerk-user-id", id) ∈ headers sent.2 ↔
         opt_clerkUserId o = Some id ∧ id ≠ "").
Proof.
  simpl. split; [done|]. split; [done|]. split; [done|]. split; [|split; [|split; [|split]]].
  - destruct (opt_clerkUserId o) as [id|]; [|by left].
    destruct (String.eqb id ""); by left.
  - intros ->. simpl. by rewrite andb_false_r.
  - by intros ->.
  - intros Hm ->. simpl. by rewrite bool_decide_eq_false_2.
  - intros id. destruct (opt_clerkUserId o) as [u|].
    + destruct (String.eqb_spec u "") as [->|Hne].
      * split; [by intros [[=]|[]%elem_of_nil]%elem_of_cons|].
        by intros [[= <-] Hid].
      * rewrite !elem_of_cons, elem_of_nil. split.
        -- intros [[=]|[[= ->]|[]]]. done.
        -- intros [[= ->] _]. right. by left.
    + split; [by intros [[=]|[]%elem_of_nil]%elem_of_cons | by intros [[=] _]].
Qed.

Lemma request_sends_witness :
  body (request "http://localhost:8000" "/api/profile/update"
          {| opt_method := Some PUT; opt_body := VNum 0;
             opt_clerkUserId := Some "u1" |}).1.2 = None ∧
  body (request "http://localhost:8000" "/api/profile/me"
          {| opt_method := None; opt_body := VObject [("a", VNum 1)];
             opt_clerkUserId := Some "u1" |}).1.2 = None.
Proof.
  split.
  - refine (proj1 (proj2 (proj2 (proj2 (proj2 (proj2
      (request_sends "http://localhost:8000" "/api/profile/update"
         {| opt_method := Some PUT; opt_body := VNum 0;
            opt_clerkUserId := Some "u1" |})))))) eq_refl).
  - refine (proj1 (proj2 (proj2 (proj2 (proj2
      (request_sends "http://localhost:8000" "/api/profile/me"
         {| opt_method := None; opt_body := VObject [("a", VNum 1)];
            opt_clerkUserId := Some "u1" |}))))) eq_refl).
Defined.

(** ** The hooks that read the cache *)

Section hooks.
Implicit Types (h : hook) (userId : string) (s : Service) (ui : HookCells).


(** A truthy value has properties: showing it does not fail. *)
Lemma hook_show_truthy h v :
  truthy v = true → ∃ shown, hook_show h v = inl shown.
Proof.
  intros Hv. destruct h; simpl; try by eexists.
  destruct v; try done; by eexists.
Qed.

Lemma given_Some userId : userId ≠ "" → given (Some userId) = true.
Proof. intros H. simpl. by destruct (String.eqb_spec userId ""). Qed.

Lemma or_empty_truthy v : truthy (or_empty v) = true.
Proof. unfold or_empty. by destruct (truthy v) eqn:Hv. Qed.

(** A fresh truthy entry is what the hook returns. *)
Lemma hook_start_served h userId now s ui entry :
  userId ≠ "" → hook_cached h = true →
  cache s !! key_of (hook_resource h) userId = Some entry →
  (now - timestamp entry ≤ ttl entry)%Z →
  truthy (data entry) = true →
  ∃ shown,
    hook_show h (data entry) = inl shown ∧
    hook_start h (Some userId) now s ui
      = (Served (data entry), s,
         {| cell := shown; isLoading := false; error_cell := NoError |}).
Proof.
  intros Hu Hc He Ht Hv. destruct (hook_show_truthy h _ Hv) as [shown Hs].
  exists shown. split; [done|]. unfold hook_start.
  rewrite (given_Some _ Hu), Hc. cbn [negb].
  change (default "" (Some userId)) with userId.
  rewrite (get_fresh _ _ _ _ He Ht), Hv, Hs. done.
Qed.
End hooks.



(** X15 (what a hook writes lives five minutes).  When the backend answers
    a hook that goes through the cache, the service is changed in the same
    way whether the hook was waiting for the answer or had returned a cached
    value: a rejection changes nothing, and an answer [data] is written
    under the key of the hook with the default time-to-live of five minutes,
    whatever time-to-live the orchestrator gives the resource; the table of
    fetches in flight is not touched.  Until those five minutes have passed
    a [prefetch] of the key is answered with what was written, when that is
    not [null], without calling its producer.  And when the hook was
    waiting, it is not loading after the answer. *)
Theorem hook_answer_lives_five_minutes h userId answer now s ui :
  hook_cached h = true →
  let key := key_of (hook_resource h) userId in
  let r := hook_resume h userId answer now s ui in
  let s' := r.1.2 in
  s' = (hook_background h userId answer now s ui).1 ∧
  isLoading r.2 = false ∧
  match answer with
  | Rejected _ => s' = s
  | Fulfilled data =>
      cache s' !! key
        = Some {| data := hook_store h data; timestamp := now; ttl := 300000 |} ∧
      prefetchPromises s' = prefetchPromises s ∧
      fetches s' = fetches s ∧
      ∀ fn ttl' t',
        hook_store h data ≠ VNull → (t' - now ≤ 300000)%Z →
        prefetch key fn ttl' t' s' = (Immediate (Fulfilled (hook_store h data)), s')
  end.
Proof.
  intros Hc key r s'. subst s' r. unfold hook_resume, hook_background.
  rewrite Hc. fold key. destruct answer as [data|err].
  - assert (cache (set key (hook_store h data) None now s) !! key
            = Some {| data := hook_store h data; timestamp := now; ttl := 300000 |})
      as Hcache by (by rewrite cache_set, lookup_insert_eq).
    split; [by destruct (hook_show h data) as [v|e]; [|destruct (hook_catch h e ui)]|].
    split.
    { destruct (hook_show h data) as [v|e]; [done|].
      destruct e as [m|e'|pr v]; simpl; try done.
      by destruct (read_property "message" e'). }
    destruct (hook_show h data) as [v|e]; [|destruct (hook_catch h e ui)];
      cbn [fst snd]; (split; [done|]; split; [done|]; split; [done|]);
      intros fn ttl' t' Hn Ht;
      pose proof (get_fresh _ _ _ _ Hcache Ht) as Hget; simpl in Hget;
      rewrite prefetch_hit; rewrite Hget; done.
  - simpl. destruct (read_property "message" err); simpl; done.
Qed.

Lemma hook_answer_lives_five_minutes_witness :
  let s := set "transactions:u1" (VNum 1) (Some 120000%Z) 0 create in
  let ui := {| cell := VNull; isLoading := true; error_cell := NoError |} in
  cache (hook_resume (Transactions None) "u1" (Fulfilled VNull) 10 s ui).1.2
    !! "transactions:u1"
  = Some {| data := VArray []; timestamp := 10; ttl := 300000 |}.
Proof.
  intros s ui.
  exact (proj1 (proj2 (proj2
    (hook_answer_lives_five_minutes (Transactions None) "u1" (Fulfilled VNull) 10
       s ui eq_refl)))).
Defined.

(** X16 (the cache of transactions does not know the page).  The parameters
    of [fetchTransactions] count as default whenever no account, type or
    category is given, whatever [limit] and [skip] are.  All such calls
    share the entry [transactions:<userId>]: after one of them has been
    answered with [data], any other of them, made within five minutes by
    the signed-in user, returns at once what the first stored, [data || []],
    though its own [limit] and [skip] may differ.  Since [data || []] is
    truthy, this holds for an answer [null] too: the stored value is then
    the empty array. *)
Theorem transactions_cache_ignores_paging p1 p2 userId data t now s ui ui' :
  userId ≠ "" →
  default_params p1 = true →
  default_params p2 = true →
  (now - t ≤ 300000)%Z →
  let s1 := (hook_resume (Transactions p1) userId (Fulfilled data) t s ui).1.2 in
  (∀ l k, default_params (Some {| accountId := None; type_ := None;
                                  category := None; limit := l; skip := k |})
          = true) ∧
  hook_start (Transactions p2) (Some userId) now s1 ui'
    = (Served (or_empty data), s1,
       {| cell := or_empty data; isLoading := false; error_cell := NoError |}).
Proof.
  intros Hu H1 H2 Ht s1. split; [done|].
  assert (cache s1 !! key_of "transactions" userId
          = Some {| data := or_empty data; timestamp := t; ttl := 300000 |})
    as Hc.
  { subst s1. unfold hook_resume. cbn [hook_cached hook_show]. rewrite H1.
    cbn [fst snd]. by rewrite cache_set, lookup_insert_eq. }
  destruct (hook_start_served (Transactions p2) userId now s1 ui' _ Hu H2 Hc Ht
              (or_empty_truthy data)) as (shown & Hs & Hstart).
  cbn [hook_show] in Hs. injection Hs as <-. rewrite Hstart. simpl.
  f_equal. f_equal. unfold or_empty at 1. by rewrite or_empty_truthy.
Qed.

Lemma transactions_cache_ignores_paging_witness :
  let page2 := Some {| accountId := None; type_ := None; category := None;
                       limit := Some 20%Z; skip := Some 20%Z |} in
  let ui := {| cell := VNull; isLoading := false; error_cell := NoError |} in
  let s1 := (hook_resume (Transactions page2) "u1"
               (Fulfilled (VArray [VStr "tx21"])) 0 create ui).1.2 in
  hook_start (Transactions None) (Some "u1") 10 s1 ui
    = (Served (VArray [VStr "tx21"]), s1,
       {| cell := VArray [VStr "tx21"]; isLoading := false;
          error_cell := NoError |}).
Proof.
  intros page2 ui s1.
  assert ("u1" ≠ "") as Hu by discriminate.
  assert ((10 - 0 ≤ 300000)%Z) as Ht by lia.
  exact (proj2 (transactions_cache_ignores_paging page2 None "u1"
                  (VArray [VStr "tx21"]) 0 10 create ui ui Hu eq_refl eq_refl Ht)).
Defined.

(** X17 (falsy payloads: a hit for [prefetch], a miss for the hooks).
    [prefetch] takes every cached value other than [null] for a hit; the
    hooks take only truthy ones.  So for a fresh entry that holds [0], [""],
    [false] or [undefined], [prefetch] answers it at once without calling
    its producer, while the fetching function of a signed-in user does not
    return it: it goes to the backend and waits, loading, with the service
    left as it is. *)
Theorem falsy_payload_hit_and_miss h userId fn ttl' now s ui entry :
  userId ≠ "" →
  hook_cached h = true →
  cache s !! key_of (hook_resource h) userId = Some entry →
  (now - timestamp entry ≤ ttl entry)%Z →
  data entry ≠ VNull →
  truthy (data entry) = false →
  prefetch (key_of (hook_resource h) userId) fn ttl' now s
    = (Immediate (Fulfilled (data entry)), s) ∧
  hook_start h (Some userId) now s ui
    = (Waiting, s, {| cell := cell ui; isLoading := true; error_cell := NoError |}).
Proof.
  intros Hu Hc He Ht Hn Hv.
  pose proof (get_fresh _ _ _ _ He Ht) as Hget. split.
  - rewrite prefetch_hit; rewrite Hget; done.
  - unfold hook_start. rewrite (given_Some _ Hu), Hc. cbn [negb].
    change (default "" (Some userId)) with userId. by rewrite Hget, Hv.
Qed.

Lemma falsy_payload_hit_and_miss_witness :
  let s := set "privacy-score:u1" (VNum 0) (Some 600000%Z) 0 create in
  let ui := {| cell := VNull; isLoading := false; error_cell := NoError |} in
  prefetch "privacy-score:u1" (Backend getPrivacyScore "u1") (Some 600000%Z) 5 s
    = (Immediate (Fulfilled (VNum 0)), s) ∧
  hook_start PrivacyScore (Some "u1") 5 s ui
    = (Waiting, s, {| cell := VNull; isLoading := true; error_cell := NoError |}).
Proof.
  intros s ui.
  assert ("u1" ≠ "") as Hu by discriminate.
  assert (VNum 0 ≠ VNull) as Hn by discriminate.
  assert ((5 - 0 ≤ 600000)%Z) as Ht by lia.
  exact (falsy_payload_hit_and_miss PrivacyScore "u1" (Backend getPrivacyScore "u1")
           (Some 600000%Z) 5 s ui
           {| data := VNum 0; timestamp := 0; ttl := 600000 |}
           Hu eq_refl eq_refl Ht Hn eq_refl).
Defined.

(** X18 (keys do not interfere).  Whatever is done with other keys, calls
    of [get], [set], [clear] and [prefetch] for them and settlements of
    their fetches, in any number and order, changes nothing for [key]: its
    entry in the cache, its entry in the table of fetches in flight, the
    producers that have been called for it, and what [get] answers for it
    at any time, are what they were. *)
Theorem other_keys_do_not_interfere key h s now :
  quiet key h s →
  let s' := (run h s).2 in
  cache s' !! key = cache s !! key ∧
  prefetchPromises s' !! key = prefetchPromises s !! key ∧
  invocations key s' = invocations key s ∧
  (get key now s').1 = (get key now s).1.
Proof.
  intros Hq s'. destruct (quiet_frame _ _ _ Hq) as (Hc & Hp & Hi).
  fold s' in Hc, Hp, Hi. split; [done|]. split; [done|]. split; [done|].
  by apply get_value.
Qed.

Lemma other_keys_do_not_interfere_witness :
  let s := set "accounts:u1" (VNum 1) None 0 create in
  let h := [ (1%Z, Prefetch "tx:u1" (Closure 0) None);
             (2%Z, Set_ "tx:u2" VNull None);
             (3%Z, Settle 0 (Rejected (VStr "HTTP 500")));
             (4%Z, Clear "tx:u2") ] in
  (get "accounts:u1" 5 (run h s).2).1 = (get "accounts:u1" 5 s).1.
Proof.
  intros s h.
  assert (quiet "accounts:u1" h s) as Hq.
  { repeat split; simpl; discriminate. }
  by destruct (other_keys_do_not_interfere "accounts:u1" h s 5 Hq) as (_ & _ & _ & H).
Defined.
